(** * PSGNets decoding heads (psgnets/models/decoding.py)

    A shallow embedding of the decoder wrapper and of the three decoding
    heads [spatial_attribute_decoder], [future_attribute_decoder] and
    [shape_decoder], with the properties of the natural-language
    specification stated over it.

    Conventions.
    - A [tf.float32] tensor entry is a real number ([R]); the arithmetic
      is the exact one, rounding is not modelled.
    - Tensor axes are nested lists, outermost axis first.
    - A Python [dict] of keyword arguments is a [gmap string _]; the
      ordered layout ([DimensionDict]) is an association list.
    - Helpers of [psgnets.ops] that the heads call and whose code is not
      part of [decoding.py] are Section variables or are modelled from the
      specification, as said at each of them. *)

From Stdlib Require Import Reals Lra Lia ZArith.
From stdpp Require Import gmap strings list.

(** ** Python sequence indexing *)

Module Py.

(** [slice.indices]: a bound of a slice with step 1 over a sequence of
    length [len]; negative bounds count from the end, and every bound is
    clamped into [0, len]. *)
Definition clamp_bound (len : nat) (i : Z) : nat :=
  if (i <? 0)%Z then Z.to_nat (Z.max 0 (Z.of_nat len + i))
  else Nat.min (Z.to_nat i) len.

(** [l[start:stop]], a missing bound being [None]. *)
Definition slice {A} (start stop : option Z) (l : list A) : list A :=
  let lo := from_option (clamp_bound (length l)) 0%nat start in
  let hi := from_option (clamp_bound (length l)) (length l) stop in
  take (hi - lo) (drop lo l).

(** [l[i]] for a possibly negative index; [None] is [IndexError]. *)
Definition index {A} (l : list A) (i : Z) : option A :=
  if (i <? 0)%Z then
    if (Z.of_nat (length l) + i <? 0)%Z then None
    else l !! Z.to_nat (Z.of_nat (length l) + i)
  else l !! Z.to_nat i.

(** [pattern in k] on strings. *)
Fixpoint is_substring (pattern k : string) : bool :=
  String.prefix pattern k
  || match k with
     | EmptyString => false
     | String _ k' => is_substring pattern k'
     end.

End Py.

(** ** Elementwise arithmetic on flattened tensors *)

Module Tensor.

Open Scope R_scope.

(** A tensor with its axes flattened, row-major. *)
Abbreviation flat := (list R).

Definition neg (x : flat) : flat := Ropp <$> x.
Definition scale (c : R) (x : flat) : flat := Rmult c <$> x.
Definition sub (x y : flat) : flat := zip_with Rminus x y.
Definition add (x y : flat) : flat := zip_with Rplus x y.
Definition mul (x y : flat) : flat := zip_with Rmult x y.
Definition zeros (n : nat) : flat := replicate n 0.

Definition sum (x : flat) : R := foldr Rplus 0 x.

(** [tf.reduce_max] along an axis with the entries [l], which are not
    empty in any use. *)
Definition reduce_max (l : flat) : R :=
  match l with
  | [] => 0
  | x :: xs => foldl Rmax x xs
  end.

End Tensor.

(** ** Outcomes of fallible code *)

(** The exceptions of the decoding code: a failed [assert], the lookup of
    a missing key or index, and the shape errors of TensorFlow; and the
    layout conflict of the specification, which it calls fatal without
    naming an exception. *)
Inductive exn :=
  AssertionError | KeyError | IndexError | ValueError | LayoutConflict.

Inductive outcome (A : Type) :=
  | Ok (a : A)
  | Raise (e : exn).
Arguments Ok {A} a.
Arguments Raise {A} e.

#[global] Instance outcome_ret : MRet outcome := @Ok.

#[global] Instance outcome_bind : MBind outcome := λ A B k m,
  match m with
  | Ok a => k a
  | Raise e => Raise e
  end.

#[global] Instance outcome_fmap : FMap outcome := λ A B f m,
  match m with
  | Ok a => Ok (f a)
  | Raise e => Raise e
  end.

(** [assert c]. *)
Definition assert (c : bool) : outcome unit :=
  if c then Ok () else Raise AssertionError.

(** ** The attribute layout ([DimensionDict]) *)

Module Layout.

(** An entry [[dstart, dend]]: a half-open range of the last axis. *)
Abbreviation range := (Z * Z)%type.

(** Modelled from the spec: class [DimensionDict] of
    [psgnets.ops.dimensions], which is not part of [decoding.py]. The
    specification describes it as an ordered mapping from an attribute
    name to a half-open integer range of the last axis of the node
    vector, with [ndims] the width of that vector. [decoding.py] imports
    it next to [OrderedDict] and uses it through the mapping protocol
    ([Dims[k]], [Dims[k] = v], [.keys()], [.items()]); the entries are
    kept in their order in an association list. *)
Record DimensionDict := {
  ndims : Z;
  entries : list (string * range)
}.

(** [DimensionDict(D)]: an empty layout of width [D]. *)
Definition empty (D : Z) : DimensionDict := {| ndims := D; entries := [] |}.

Fixpoint lookup_entry (k : string) (es : list (string * range))
  : option range :=
  match es with
  | [] => None
  | (k', r) :: es' => if decide (k' = k) then Some r else lookup_entry k es'
  end.

(** [Dims[k]]; a missing key raises [KeyError]. *)
Definition getitem (Dims : DimensionDict) (k : string) : outcome range :=
  match lookup_entry k (entries Dims) with
  | Some r => Ok r
  | None => Raise KeyError
  end.

(** Two half-open ranges share a column. *)
Definition overlap (r1 r2 : range) : Prop :=
  (Z.max r1.1 r2.1 < Z.min r1.2 r2.2)%Z.

#[global] Instance overlap_dec r1 r2 : Decision (overlap r1 r2) :=
  Z_lt_dec _ _.

(** Modelled from the spec: the insertion of a named range into the
    layout, which [decoding.py] writes [Dims[k] = r]
    ([DimensionDict.__setitem__], not part of [decoding.py]). By the
    specification the layout is an ordered mapping whose insertion must
    preserve the disjointness of the ranges and validates it on every
    insertion, inserting an existing name is an error, and a layout
    conflict is fatal: the insertion of a name that the layout has, or
    of a range that shares a column with a range of the layout, is
    refused; otherwise the name goes to the end of the mapping ([sort]
    is a separate operation of the layout, which the head calls after
    its insertions). This is the insertion into the scratch layout of
    [spatial_attribute_decoder] (lines 197-203). *)
Definition insert (Dims : DimensionDict) (k : string) (r : range)
  : outcome DimensionDict :=
  match lookup_entry k (entries Dims) with
  | Some _ => Raise LayoutConflict
  | None =>
      if forallb (λ kr : string * range, negb (bool_decide (overlap kr.2 r)))
           (entries Dims)
      then Ok {| ndims := ndims Dims; entries := entries Dims ++ [(k, r)] |}
      else Raise LayoutConflict
  end.

(** [.keys()]. *)
Definition keys (Dims : DimensionDict) : list string := (entries Dims).*1.

(** Modelled from the spec: [DimensionDict.parse_dims(dims, start,
    multiplier, allow_expansion=False)], not part of [decoding.py]. For
    [dims = [n, func]] it gives the range of [n * multiplier] columns
    that begins at [start] (the specification: a slice of [1 + k]
    coefficients for each decoded dimension); [decoding.py] advances
    [dims_used] by the width [newdims[1] - newdims[0]]. *)
Definition parse_dims (n : Z) (start multiplier : Z) : range :=
  (start, start + n * multiplier)%Z.

(** The ranges follow each other without a gap from column [lo] on. *)
Fixpoint contiguous (lo : Z) (es : list (string * range)) : Prop :=
  match es with
  | [] => True
  | (_, (s, e)) :: es' => s = lo ∧ (s ≤ e)%Z ∧ contiguous e es'
  end.

(** The end of the last range, [lo] for no range. *)
Fixpoint upper (lo : Z) (es : list (string * range)) : Z :=
  match es with
  | [] => lo
  | (_, (_, e)) :: es' => upper e es'
  end.

End Layout.

(** ** [future_attribute_decoder] *)

Module Future.

Import Tensor Layout.
Open Scope R_scope.

(** A dense field at one (batch, time) index: the axes [H,W,2] flattened. *)
Abbreviation field := (list R).

(** A node tensor, axes [B,T,N,D]. *)
Abbreviation nodes_t := (list (list (list (list R)))).

(** [tensor.shape] of a node tensor, read along the first entries. *)
Definition shape (x : nodes_t) : list nat :=
  let x1 := default [] (head x) in
  let x2 := default [] (head x1) in
  let x3 := default [] (head x2) in
  [length x; length x1; length x2; length x3].

(** [c * x] for a node tensor. *)
Definition scale_nodes (c : R) (x : nodes_t) : nodes_t :=
  fmap (M := list) (fmap (M := list) (fmap (M := list) (scale c))) x.

(** [-x] for a node tensor. *)
Definition neg_nodes (x : nodes_t) : nodes_t :=
  fmap (M := list) (fmap (M := list) (fmap (M := list) neg)) x.

(** An attribute selector such as [('pred_flows', [[0,2]])]: a name and
    the sub-ranges taken inside the range of that name. *)
Abbreviation attr_dims := (string * list (Z * Z))%type.

Section NodeFlows.

(** [Dims.get_attr_dims(nodes, name, subranges, position, stop_gradient)]
    of [psgnets.ops.dimensions], not part of [decoding.py]: the columns
    of [nodes] that the layout gives to the sub-ranges of an
    attribute. *)
Variable get_attr_dims :
  DimensionDict → nodes_t → string → list (Z * Z) → Z → bool
  → outcome nodes_t.

(** Lines 244-249.
<<
nodes_flows = Dims.get_attr_dims(nodes, *flows_dims, position=key_pos, stop_gradient=True)
if back_flows_dims is not None:
    nodes_back_flows = Dims.get_attr_dims(nodes, *back_flows_dims, position=-1, stop_gradient=True)
    assert nodes_back_flows.shape == nodes_flows.shape, (nodes_back_flows)
else:
    nodes_back_flows = -1. * nodes_flows
>> *)
Definition node_flows (Dims : DimensionDict) (nodes : nodes_t)
    (flows_dims : attr_dims) (key_pos : Z)
    (back_flows_dims : option attr_dims) : outcome (nodes_t * nodes_t) :=
  nodes_flows ←
    get_attr_dims Dims nodes flows_dims.1 flows_dims.2 key_pos true;
  match back_flows_dims with
  | Some bfd =>
      nodes_back_flows ←
        get_attr_dims Dims nodes bfd.1 bfd.2 (-1)%Z true;
      _ ← assert (bool_decide (shape nodes_back_flows = shape nodes_flows));
      Ok (nodes_flows, nodes_back_flows)
  | None => Ok (nodes_flows, scale_nodes (-1) nodes_flows)
  end.

End NodeFlows.

(** Lines 255-260, for one batch element: [fwd] and [bck] are the time
    axes of [fwd_flows] and [bck_flows].
<<
    flows = tf.concat([
        -bck_flows[:,0:1],
        0.5 * (fwd_flows[:,1:-1] - bck_flows[:,1:-1]),
        fwd_flows[:,-1:]
    ], axis=1)
>> *)
Definition combine_time_axis (fwd bck : list field) : list field :=
  (neg <$> Py.slice (Some 0%Z) (Some 1%Z) bck)
  ++ (scale 0.5 <$>
        zip_with sub (Py.slice (Some 1%Z) (Some (-1)%Z) fwd)
                     (Py.slice (Some 1%Z) (Some (-1)%Z) bck))
  ++ Py.slice (Some (-1)%Z) None fwd.

(** The slices leave the batch axis alone: the concatenation is along
    axis 1 of every batch element. *)
Definition combine_flows (fwd_flows bck_flows : list (list field))
  : list (list field) :=
  zip_with combine_time_axis fwd_flows bck_flows.

(** The average of two fields, as the specification words the rule for
    the interior time steps. *)
Definition average (x y : field) : field := scale 0.5 (add x y).

(** The boundary rules as the specification states them, at batch
    element [b] of fields defined over [T] time steps. *)
Definition boundary_rules_as_stated
    (fwd_flows bck_flows : list (list field)) (b : nat) : Prop :=
  ∀ fwd bck flows,
    fwd_flows !! b = Some fwd → bck_flows !! b = Some bck →
    length bck = length fwd →
    combine_flows fwd_flows bck_flows !! b = Some flows →
    flows !! 0%nat = neg <$> bck !! 0%nat
    ∧ flows !! (length fwd - 1)%nat = fwd !! (length fwd - 1)%nat
    ∧ ∀ t x y, (0 < t < length fwd - 1)%nat →
        fwd !! t = Some x → bck !! t = Some y →
        flows !! t = Some (average x y).

(** An entry of [attribute_dims_to_decode]: [dims[0]], a number of
    columns or a list of sub-ranges, and [dims[1]], a post-processing
    function or [None]. *)
Abbreviation attr_spec :=
  ((nat + list (Z * Z))
   * option (list (list field) → list (list field)))%type.

Record future_images := {
  valid_pixels : list (list (list flat));
  contested_pixels : list (list field);
  rendered : list (string * list (list field))
}.

Section Head.

(** The functions of [psgnets.ops] that the head calls and that are not
    part of [decoding.py]: [Dims.get_attr] and [Dims.get_attr_dims] of
    the layout, [utils.preproc_segment_ids], and
    [render_nodes_with_segment_ids], [propagate_index_map],
    [resolve_depth_order] and [render_attrs_from_segment_weights] of
    [rendering]. Index masks and weights have the axes [B,T,H*W,N]. *)
Variable get_attr : DimensionDict → gmap string nodes_t → string → outcome nodes_t.
Variable get_attr_dims :
  DimensionDict → nodes_t → string → list (Z * Z) → Z → bool → outcome nodes_t.
Variable preproc_segment_ids :
  list (list (list (list Z))) → nat → list (list (list (list Z))).
Variable render_nodes_with_segment_ids :
  nodes_t → list (list (list (list Z))) → list (list field).
Variable propagate_index_map :
  list (list (list (list Z))) → list (list field) → nodes_t → gmap string R
  → list (list field) * nodes_t.
Variable resolve_depth_order :
  nodes_t → nodes_t → nodes_t → gmap string R → nodes_t.
Variable render_attrs_from_segment_weights :
  nodes_t → nodes_t → list (Z * Z) → list (list field).

(** [Dims[k] = r] on the layout of the caller
    ([DimensionDict.__setitem__], not part of [decoding.py]). The head
    assigns to 'pred_depths' a range inside the range of the attribute
    that it has just read, by default 'pred_depths' itself; what the
    layout does with a name that it has, or with a range that shares
    columns with another, is left open here. *)
Variable setitem : DimensionDict → string → range → outcome DimensionDict.

(** Lines 269-270: the layout registers the depth columns in use.
<<
  ddims = Dims[depths_dims[0]]
  Dims['pred_depths'] = [ddims[0] + depths_dims[1][0][0], ddims[0] + depths_dims[1][0][1]]
>>
    [depths_dims[1][0]] of an empty list of sub-ranges is an
    [IndexError]. *)
Definition register_pred_depths (Dims : DimensionDict)
    (depths_dims : attr_dims) : outcome DimensionDict :=
  ddims ← getitem Dims depths_dims.1;
  match depths_dims.2 with
  | [] => Raise IndexError
  | (a, b) :: _ => setitem Dims "pred_depths" (ddims.1 + a, ddims.1 + b)%Z
  end.

(** Lines 279-286, one attribute; [tf.stop_gradient] leaves the values
    as they are. *)
Definition render_attribute (Dims : DimensionDict) (nodes depth_weights : nodes_t)
    (item : string * attr_spec) : outcome (string * list (list field)) :=
  let ds := match item.2.1 with
            | inl n => [(0, Z.of_nat n)%Z]
            | inr ds => ds
            end in
  nodes_attr ← get_attr_dims Dims nodes item.1 ds (-1)%Z false;
  let rend := render_attrs_from_segment_weights depth_weights nodes_attr ds in
  let postproc := match item.2.2 with
                  | Some func => func
                  | None => λ t, t
                  end in
  Ok (item.1, postproc rend).

(** Lines 234-288. The layout is changed in place; it is returned next
    to the images. *)
Definition future_attribute_decoder
    (nodes : gmap string nodes_t) (segment_ids : list (list (list (list Z))))
    (Dims : DimensionDict) (flows_dims : attr_dims) (key_pos : Z)
    (back_flows_dims : option attr_dims) (depths_dims : attr_dims)
    (attribute_dims_to_decode : list (string * attr_spec))
    (kwargs : gmap string R) : outcome (future_images * DimensionDict) :=
  nodes_valid ← get_attr Dims nodes "valid";
  match nodes !! "vector" with
  | None => Raise KeyError
  | Some nodes =>
      let N := nth 2 (shape nodes) 0%nat in
      _ ← assert (bool_decide (ndims Dims = Z.of_nat (nth 3 (shape nodes) 0%nat)));
      (* produce the flows map *)
      flows ← node_flows get_attr_dims Dims nodes flows_dims key_pos
                back_flows_dims;
      let segment_ids := preproc_segment_ids segment_ids N in
      let fwd_flows := render_nodes_with_segment_ids flows.1 segment_ids in
      let bck_flows := render_nodes_with_segment_ids flows.2 segment_ids in
      (* combine flows *)
      let flows := combine_flows fwd_flows bck_flows in
      (* propagate the index map *)
      let maps := propagate_index_map segment_ids flows nodes_valid kwargs in
      (* resolve the depth ordering *)
      nodes_depths ←
        get_attr_dims Dims nodes depths_dims.1 depths_dims.2 (-1)%Z false;
      Dims ← register_pred_depths Dims depths_dims;
      _ ← assert (bool_decide
                    (shape nodes_depths
                     = take 3 (shape nodes) ++ [1%nat]));
      let depth_weights :=
        resolve_depth_order maps.2 nodes_depths nodes_valid kwargs in
      (* render *)
      rends ← mapM (render_attribute Dims nodes depth_weights)
                attribute_dims_to_decode;
      Ok ({| valid_pixels :=
               fmap (M := list) (fmap (M := list) (fmap (M := list)
                 (λ mask, [reduce_max mask]))) maps.2;
             contested_pixels := maps.1;
             rendered := rends |}, Dims)
  end.

End Head.

(** The default [depths_dims=('pred_depths', [[0,1]])]. *)
Definition default_depths_dims : attr_dims := ("pred_depths", [(0, 1)%Z]).

End Future.

(** ** [spatial_attribute_decoder] *)

Module Spatial.

Import Tensor Layout.
Open Scope R_scope.

(** [method], and [n_coeffs_per_dim] (line 195). *)
Inductive method := constant | linear | quadratic.

Definition n_coeffs_per_dim (m : method) : nat :=
  match m with constant => 0 | linear => 2 | quadratic => 5 end.

(** An entry [[n, func]] of [attribute_dims_to_decode]: the number of
    decoded dimensions and the post-processing function. *)
Abbreviation pred_dims := (nat * (flat → flat))%type.

(** [tf.nn.l2_normalize(n, axis=-1)], with TensorFlow's [epsilon]. *)
Definition l2_normalize (x : flat) : flat :=
  scale (/ sqrt (Rmax (sum (mul x x)) (1 / 10 ^ 12))) x.

(** [tf.clip_by_value]. *)
Definition clip_by_value (lo hi : R) (x : flat) : flat :=
  (λ v, Rmax lo (Rmin v hi)) <$> x.

(** [DEFAULT_PRED_DIMS] (lines 24-28); [preproc_hsv] belongs to the
    preprocessing module and is left open. *)
Definition pred_depths_postproc (z : flat) : flat := (λ v, Rmin v (-0.1)) <$> z.

Definition DEFAULT_PRED_DIMS (preproc_hsv : flat → flat)
  : list (string * pred_dims) :=
  [ ("pred_depths", (1%nat, pred_depths_postproc));
    ("pred_images", (3%nat, λ im, clip_by_value (-100) 100 (preproc_hsv im)));
    ("pred_normals", (3%nat, l2_normalize)) ].

(** Lines 197-203: the layout of the predictions inside the latent vector
    of width [D].
<<
    predDims = DimensionDict(D)
    dims_used=0
    for attr, dims in attribute_dims_to_decode.items():
        newdims = predDims.parse_dims(dims, start=dims_used, multiplier=(1+n_coeffs_per_dim), allow_expansion=False)
        predDims[attr] = newdims
        dims_used += newdims[1] - newdims[0]
    predDims[lat_key+'_remainder'] = [dims_used, predDims.ndims]
>>
    One turn of the loop, from the layout and [dims_used] before it: *)
Definition assign_pred_dims (m : method) (acc : DimensionDict * Z)
    (item : string * pred_dims) : outcome (DimensionDict * Z) :=
  let newdims :=
    parse_dims (Z.of_nat item.2.1) acc.2 (1 + Z.of_nat (n_coeffs_per_dim m)) in
  predDims ← insert acc.1 item.1 newdims;
  Ok (predDims, (acc.2 + (newdims.2 - newdims.1))%Z).

(** The loop over the attributes in their order. *)
Fixpoint assign_all (m : method) (acc : DimensionDict * Z)
    (attribute_dims_to_decode : list (string * pred_dims))
  : outcome (DimensionDict * Z) :=
  match attribute_dims_to_decode with
  | [] => Ok acc
  | item :: items =>
      acc ← assign_pred_dims m acc item;
      assign_all m acc items
  end.

Definition build_pred_dims (D : Z) (attribute_dims_to_decode : list (string * pred_dims))
    (m : method) (lat_key : string) : outcome DimensionDict :=
  acc ← assign_all m (empty D, 0%Z) attribute_dims_to_decode;
  insert acc.1 (lat_key +:+ "_remainder") (acc.2, ndims acc.1).

(** The columns that the loop has given out: [dims_used] at its end. *)
Definition columns_used (m : method)
    (attribute_dims_to_decode : list (string * pred_dims)) : Z :=
  foldr (λ item acc,
           (Z.of_nat item.2.1 * (1 + Z.of_nat (n_coeffs_per_dim m)) + acc)%Z)
        0%Z attribute_dims_to_decode.

(** Modelled from the spec: [DimensionDict.get_tensor_from_attrs(tensor,
    attr, postproc=False)], not part of [decoding.py]: the columns
    [[dstart, dend)] of the last axis that the layout gives to [attr]. *)
Definition get_tensor_from_attrs (Dims : DimensionDict) (row : flat)
    (attr : string) : outcome flat :=
  r ← getitem Dims attr;
  Ok (Py.slice (Some r.1) (Some r.2) row).

(** [tf.split(x, m, axis=-1)]: [m] consecutive parts of equal width. *)
Fixpoint parts (width m : nat) (x : flat) : list flat :=
  match m with
  | O => []
  | S m' => take width x :: parts width m' (drop width x)
  end.

Definition split (m : nat) (x : flat) : outcome (list flat) :=
  if bool_decide (length x `mod` m = 0)%nat
  then Ok (parts (length x / m) m x)
  else Raise ValueError.

(** [tf.add_n]. *)
Definition add_n (ts : list flat) : flat :=
  match ts with
  | [] => []
  | t :: ts' => foldl add t ts'
  end.

(** Line 209: the monomials of the offset.
<<
    deltas = [1.0] + ([dH,dW] if method != 'constant' else []) + ([dH*dH, dH*dW, dW*dW] if method == 'quadratic' else [])
>> *)
Definition deltas (m : method) (dH dW : R) : list R :=
  [1]
  ++ (match m with constant => [] | _ => [dH; dW] end)
  ++ (match m with quadratic => [dH * dH; dH * dW; dW * dW] | _ => [] end).

(** Lines 211-215 at one sampled pixel: [row] is the pixel's entry of
    [latent_vectors_to_decode], and [func] is [predDims[attr][2]], the
    post-processing that [parse_dims] took from [dims].
<<
        attr_vec = predDims.get_tensor_from_attrs(latent_vectors_to_decode, attr, postproc=False)
        attr_vec = tf.split(attr_vec, 1+n_coeffs_per_dim, axis=-1)
        func = predDims[attr][2]
        spatial_pred_attrs[attr] = func(tf.add_n([av * deltas[i] for i,av in enumerate(attr_vec)]))
>> *)
Definition expansion (m : method) (predDims : DimensionDict) (attr : string)
    (row : flat) (dH dW : R) : outcome flat :=
  attr_vec ← get_tensor_from_attrs predDims row attr;
  attr_vec ← split (1 + n_coeffs_per_dim m) attr_vec;
  Ok (add_n (zip_with (λ av d, scale d av) attr_vec (deltas m dH dW))).

Definition render_attr (m : method) (predDims : DimensionDict) (attr : string)
    (func : flat → flat) (row : flat) (dH dW : R) : outcome flat :=
  func <$> expansion m predDims attr row dH dW.

(** The node record ([propdict]) at one (batch, time) index: every
    attribute is a tensor of axes [N, Dattr]. The heads act on every
    (batch, time) index alike; the embedding is of one such index. *)
Abbreviation propdict := (gmap string (list flat)).

(** [tf.gather_nd] along one axis; an index out of range gives the
    default entry. *)
Definition gather {A} (d : A) (l : list A) (i : Z) : A :=
  if (i <? 0)%Z then d else nth (Z.to_nat i) l d.

(** [rendering.get_image_values_from_indices(image, inds)] at one index
    pair (the specification: [gather_by_index(array, coords)]). *)
Definition get_image_value {A} (d : A) (image : list (list A)) (hw : Z * Z) : A :=
  gather d (gather [] image hw.1) hw.2.

(** The product of two tensors whose last axes broadcast. *)
Definition broadcast_mul (x y : flat) : flat :=
  match x, y with
  | _, [v] => scale v x
  | [v], _ => scale v y
  | _, _ => mul x y
  end.

(** Lines 183-186: a pixel index on the scale of the centroids. *)
Definition inds_float (H W : Z) (hw : Z * Z) : flat :=
  [ -1 + IZR hw.1 / ((IZR H - 1) / 2); -1 + IZR hw.2 / ((IZR W - 1) / 2) ].

Record outputs := {
  sampled_hw_inds : list (Z * Z);
  sampled_pred_attrs : list (string * list flat);
  sampled_valid_attrs : list flat
}.

Section Head.

(** The state of the random number generator behind the sampling. *)
Variable rng : Type.

(** [rendering.sample_image_inds(out_shape=[B,T,P], im_size=[H,W],
    train=train)], not part of [decoding.py]; by the specification it
    samples [P] pixel locations, deterministic or random according to
    [train]. Here: [P], the image size, [train] and the generator state
    give the locations of one (batch, time) index and the next state. *)
Variable sample_image_inds : Z → Z * Z → bool → rng → list (Z * Z) * rng.

(** [utils.preproc_segment_ids(segment_ids, Nmax=N,
    return_valid_segments=True)], not part of [decoding.py]: the
    normalised segment ids and the validity of every pixel's segment. *)
Variable preproc_segment_ids :
  list (list Z) → Z → list (list Z) * list (list R).

(** [Dims.sort()], [Dims.insert_from(predDims, position, expand)] and
    [Dims.get_tensor_from_attrs(tensor, key)] with its default arguments,
    of [psgnets.ops.dimensions], not part of [decoding.py]. *)
Variable sort : DimensionDict → DimensionDict.
Variable insert_from : DimensionDict → DimensionDict → Z → bool → DimensionDict.
Variable get_tensor :
  DimensionDict → list flat → string → outcome (list flat).

(** Lines 155-156, 157-158 and 159-160: the last (or [key_pos]-th) key of
    the sorted layout that contains the pattern, and its tensor.
<<
    hw_key = [k for k in Dims.sort().keys() if hw_attr in k][-1]
    node_hws = nodes.get(hw_key, Dims.get_tensor_from_attrs(nodes['vector'], hw_key))
>> *)
Definition resolve (Dims : DimensionDict) (nodes : propdict)
    (pattern : string) (pos : Z)
  : outcome (DimensionDict * string * list flat) :=
  let Dims := sort Dims in
  match Py.index (filter (λ k, Py.is_substring pattern k = true) (keys Dims)) pos with
  | None => Raise IndexError
  | Some key =>
      match nodes !! "vector" with
      | None => Raise KeyError
      | Some vector =>
          dflt ← get_tensor Dims vector key;
          Ok (Dims, key, default dflt (nodes !! key))
      end
  end.

(** Lines 173-192 at one sampled pixel [hw]: the validity and the latent
    vector to decode, and the offset from the centroid. *)
Definition valid_vector_to_decode (valid_nodes : list flat)
    (segment_ids : list (list Z)) (valid_segments : list (list R))
    (hw : Z * Z) : flat :=
  broadcast_mul
    (gather [] valid_nodes (get_image_value 0%Z segment_ids hw))
    [get_image_value 0 valid_segments hw].

Definition latent_vector_to_decode (latent_vec valid_nodes : list flat)
    (segment_ids : list (list Z)) (valid_segments : list (list R))
    (hw : Z * Z) : flat :=
  broadcast_mul
    (gather [] latent_vec (get_image_value 0%Z segment_ids hw))
    (valid_vector_to_decode valid_nodes segment_ids valid_segments hw).

Definition offset (H W : Z) (node_hws : list flat)
    (segment_ids : list (list Z)) (hw : Z * Z) : R * R :=
  let d := sub (inds_float H W hw)
               (gather [] node_hws (get_image_value 0%Z segment_ids hw)) in
  (nth 0 d 0, nth 1 d 0).

(** Lines 152-223 at one (batch, time) index, for a layout that is given
    ([dimension_dict] is not [None]). The assertion of line 166 is about
    the batch and time axes, which one index does not have. *)
Definition spatial_attribute_decoder
    (nodes : propdict) (segment_ids : list (list Z)) (Dims : DimensionDict)
    (latent_vector_key : string) (key_pos : Z) (hw_attr : string)
    (num_sample_points : Z) (train : bool)
    (attribute_dims_to_decode : list (string * pred_dims)) (m : method)
    (g : rng) : outcome (outputs * DimensionDict) * rng :=
  match
    '(Dims, hw_key, node_hws) ← resolve Dims nodes hw_attr (-1);
    '(Dims, lat_key, latent_vec) ← resolve Dims nodes latent_vector_key key_pos;
    '(Dims, val_key, valid_nodes) ← resolve Dims nodes "valid" (-1);
    Ok (Dims, node_hws, lat_key, latent_vec, valid_nodes)
  with
  | Raise e => (Raise e, g)
  | Ok (Dims, node_hws, lat_key, latent_vec, valid_nodes) =>
      (* sample spatial indices *)
      let N := Z.of_nat (length valid_nodes) in
      let H := Z.of_nat (length segment_ids) in
      let W := Z.of_nat (length (default [] (head segment_ids))) in
      let P := Z.min num_sample_points (H * W) in
      let '(spatial_inds, g') := sample_image_inds P (H, W) train g in
      (* which nodes are being sampled *)
      let '(segment_ids, valid_segments) := preproc_segment_ids segment_ids N in
      let valid_vectors_to_decode :=
        valid_vector_to_decode valid_nodes segment_ids valid_segments
          <$> spatial_inds in
      (* assign dims to the latent vector and the dimension_dict *)
      let D := Z.of_nat (length (default [] (head latent_vec))) in
      ( predDims ← build_pred_dims D attribute_dims_to_decode m lat_key;
        position ← getitem Dims lat_key;
        let Dims := sort (insert_from Dims predDims position.1 false) in
        (* the texture rendering of each attribute *)
        spatial_pred_attrs ←
          mapM (λ item : string * pred_dims,
                  pred ← mapM (λ hw,
                      let dHW := offset H W node_hws segment_ids hw in
                      render_attr m predDims item.1 item.2.2
                        (latent_vector_to_decode latent_vec valid_nodes
                           segment_ids valid_segments hw)
                        dHW.1 dHW.2) spatial_inds;
                  Ok (item.1, pred))
               attribute_dims_to_decode;
        Ok ({| sampled_hw_inds := spatial_inds;
               sampled_pred_attrs := spatial_pred_attrs;
               sampled_valid_attrs := valid_vectors_to_decode |}, Dims),
        g' )
  end.

End Head.

(** The properties of the specification as it states them, at one
    sampled pixel [hw]: with [method='constant'] the decoded value is the
    bias coefficient of the owning node itself, and at a pixel of an
    invalid node or segment the decoded value is zero. *)
Definition constant_as_stated (predDims : DimensionDict) (attr : string)
    (func : flat → flat) (latent_vec valid_nodes : list flat)
    (segment_ids : list (list Z)) (valid_segments : list (list R))
    (hw : Z * Z) : Prop :=
  ∀ dH dW,
    render_attr constant predDims attr func
      (latent_vector_to_decode latent_vec valid_nodes segment_ids
         valid_segments hw) dH dW
    = get_tensor_from_attrs predDims
        (gather [] latent_vec (get_image_value 0%Z segment_ids hw)) attr.

Definition zeroed_as_stated (m : method) (predDims : DimensionDict)
    (attr : string) (func : flat → flat) (latent_vec valid_nodes : list flat)
    (segment_ids : list (list Z)) (valid_segments : list (list R))
    (hw : Z * Z) : Prop :=
  valid_vector_to_decode valid_nodes segment_ids valid_segments hw = [0] →
  ∀ dH dW pred,
    render_attr m predDims attr func
      (latent_vector_to_decode latent_vec valid_nodes segment_ids
         valid_segments hw) dH dW = Ok pred →
    pred = zeros (length pred).

(** *** Helpers to run the head on concrete inputs

    The helpers below stand in for the functions of [psgnets.ops] that
    are not part of [decoding.py], so that the head can be run in the
    examples; the theorems hold for every choice of these helpers. *)

(** In the place of [rendering.sample_image_inds]: [P] consecutive
    pixels in row-major order, from the first pixel in evaluation mode
    and from the one that the generator state points at in training
    mode, where the state advances. *)
Definition sample_image_inds_model (P : Z) (im_size : Z * Z) (train : bool)
    (g : Z) : list (Z * Z) * Z :=
  let start := if train then g else 0%Z in
  ((λ i, let q := ((start + i) `mod` (im_size.1 * im_size.2))%Z in
         (q `div` im_size.2, q `mod` im_size.2)%Z) <$> seqZ 0 P,
   if train then (g + P)%Z else g).

(** Segment ids in [0, N) are valid and kept; any other is invalid and
    replaced by 0. *)
Definition preproc_segment_ids_model (segment_ids : list (list Z)) (N : Z)
  : list (list Z) * list (list R) :=
  (fmap (M := list) (fmap (M := list)
     (λ s, if bool_decide (0 ≤ s < N)%Z then s else 0%Z)) segment_ids,
   fmap (M := list) (fmap (M := list)
     (λ s, if bool_decide (0 ≤ s < N)%Z then 1 else 0)) segment_ids).

(** The new ranges, moved to [position], follow the entries of the
    layout. *)
Definition insert_from_model (Dims predDims : DimensionDict) (position : Z)
    (expand : bool) : DimensionDict :=
  {| ndims := ndims Dims;
     entries :=
       entries Dims
       ++ ((λ kr : string * range,
              (kr.1, (kr.2.1 + position, kr.2.2 + position)%Z))
           <$> entries predDims) |}.

(** The columns of the attribute, for every node. *)
Definition get_tensor_model (Dims : DimensionDict) (tensor : list flat)
    (key : string) : outcome (list flat) :=
  mapM (λ row, get_tensor_from_attrs Dims row key) tensor.

Definition run_spatial_attribute_decoder :=
  spatial_attribute_decoder Z sample_image_inds_model
    preproc_segment_ids_model (λ Dims, Dims) insert_from_model
    get_tensor_model.

(** A record of two nodes, the second one invalid, with the layout
    [hw_centroids = [0,2)], [unary_attrs = [2,5)], [valid = [5,6)], and a
    segmentation map of two by two pixels. *)
Definition example_nodes : propdict :=
  {[ "vector" := [ [0; 0; 3; 8; 2; 1]; [0.5; 0.5; 4; 9; 1; 0] ] ]}.

Definition example_dims : DimensionDict :=
  {| ndims := 6;
     entries := [ ("hw_centroids", (0, 2)%Z); ("unary_attrs", (2, 5)%Z);
                  ("valid", (5, 6)%Z) ] |}.

Definition example_segment_ids : list (list Z) := [ [0; 0]; [1; 1] ]%Z.

End Spatial.

(** ** [shape_decoder]: depth ordering and outputs *)

Module Shape.

Import Tensor Layout.
Open Scope R_scope.

(** [tf.nn.softmax] along an axis with the entries [x], in the exact
    arithmetic of the real numbers. The [float32] result differs by
    rounding: an entry far below the largest one is rounded to 0
    there, and entries that differ here can be rounded to the same
    number. No result below says that an entry is positive or that two
    entries differ. *)
Definition softmax (x : flat) : flat :=
  let e := exp <$> x in (λ v, v / sum e) <$> e.

(** [tf.argmax] along an axis: the index of the largest entry, the first
    one among equals. [best] is the largest entry before index [i], at
    index [best_i]. *)
Fixpoint argmax_from (best_i : nat) (best : R) (i : nat) (l : flat) : nat :=
  match l with
  | [] => best_i
  | x :: xs =>
      if Rlt_dec best x then argmax_from i x (S i) xs
      else argmax_from best_i best (S i) xs
  end.

Definition argmax (l : flat) : nat :=
  match l with
  | [] => 0%nat
  | x :: xs => argmax_from 0 x 1 xs
  end.

(** Lines 337-341: the factors that bring the four entries of a shape
    code from the scale of the centroids to the image size.
<<
    if scale_codes_by_imsize:
        xy_scales = tf.constant([float(W-1)/2, float(H-1)/2, 1., np.sqrt(float(H-1)*float(W-1))/2], tf.float32)
        xy_scales = tf.reshape(xy_scales, [1,1,1,1,4])
    else:
        xy_scales = tf.ones([1,1,1,1,4], dtype=tf.float32)
>> *)
Definition xy_scales (H W : Z) (scale_codes_by_imsize : bool) : flat :=
  if scale_codes_by_imsize then
    [ (IZR W - 1) / 2; (IZR H - 1) / 2; 1;
      sqrt ((IZR H - 1) * (IZR W - 1)) / 2 ]
  else [1; 1; 1; 1].

(** Lines 348-352 at one node, whose centroid [nodes_hw] has the entries
    [ch] and [cw].
<<
    assert nodes_hw.shape.as_list()[-1] == 2, (nodes_hw, hw_attr)
    ch, cw = tf.unstack(nodes_hw, axis=-1)
    centroids_xy = tf.stack([cw, -ch], -1)
    translations = centroids_xy * xy_scales[...,0,0:2]
>> *)
Definition translations (H W : Z) (scale_codes_by_imsize : bool)
    (nodes_hw : flat) : outcome flat :=
  _ ← assert (bool_decide (length nodes_hw = 2%nat));
  let ch := nth 0 nodes_hw 0 in
  let cw := nth 1 nodes_hw 0 in
  let centroids_xy := [cw; - ch] in
  Ok (mul centroids_xy
        (Py.slice (Some 0%Z) (Some 2%Z) (xy_scales H W scale_codes_by_imsize))).

(** Lines 389-391 at one pixel: [logits] are the entries of [shape_logits]
    along the node axis, and [kwargs] the numeric keyword arguments.
<<
    if zero_max:
        shape_logits -= tf.reduce_max(shape_logits, axis=-1, keepdims=True)
    shape_probs = tf.nn.softmax(shape_logits * kwargs.get('beta', 1.), axis=-1)
>> *)
Definition stabilise (zero_max : bool) (logits : flat) : flat :=
  if zero_max then (λ v, v - reduce_max logits) <$> logits else logits.

Definition shape_probs (kwargs : gmap string R) (logits : flat) : flat :=
  softmax ((λ v, v * default 1 (kwargs !! "beta")) <$> logits).

(** The value of ['shapes'] and of ['shape_logits']: a tensor with the
    node axis, or the integer label of every pixel. *)
Inductive node_map :=
  | soft (per_pixel : list flat)
  | hard (labels : list nat).

Record decoded := {
  shapes : node_map;
  shape_logits : node_map;
  shapes_valid : list R;
  rendered : list (string * list flat)
}.

(** An entry of [attribute_dims_to_decode]: [dims[0]], a number of
    columns or a list of sub-ranges, and [dims[1]], a post-processing
    function or [None]. *)
Abbreviation attr_spec :=
  ((nat + list (Z * Z)) * option (list flat → list flat))%type.

Section Compositing.

(** The type of [nodes_depths], a node tensor or, after the depth
    convolution, a tensor with pixel axes. *)
Variable depths_t : Type.

(** [rendering.resolve_depth_order(index_masks, node_depths, valid_nodes,
    softmax, valid_mask, **kwargs)], not part of [decoding.py]: for every
    pixel an entry per node. *)
Variable resolve_depth_order :
  list flat → depths_t → list R → bool → bool → gmap string R → list flat.

(** [rendering.render_attrs_from_segment_weights(weights, nodes_attr,
    ds)], not part of [decoding.py]. *)
Variable render_attrs_from_segment_weights :
  list flat → list flat → list (Z * Z) → list flat.

(** [Dims.get_attr_dims(nodes, attr, ds, position=-1)], not part of
    [decoding.py]. *)
Variable get_attr_dims :
  DimensionDict → list flat → string → list (Z * Z) → Z → outcome (list flat).

(** Lines 405-412, one attribute.
<<
        ds = [[0,dims[0]]] if isinstance(dims[0], int) else dims[0]
        nodes_attr = Dims.get_attr_dims(nodes, attr, ds, position=-1)
        nodes_attr = tf.stop_gradient(nodes_attr) if stop_gradient_attrs else nodes_attr
        rend = rendering.render_attrs_from_segment_weights(shape_probs, nodes_attr, ds)
        rend = (dims[1] or tf.identity)(rend)
>> *)
Definition render_attribute (Dims : DimensionDict) (nodes : list flat)
    (weights : list flat) (item : string * attr_spec)
  : outcome (string * list flat) :=
  let ds := match item.2.1 with
            | inl n => [(0, Z.of_nat n)%Z]
            | inr ds => ds
            end in
  nodes_attr ← get_attr_dims Dims nodes item.1 ds (-1)%Z;
  let rend := render_attrs_from_segment_weights weights nodes_attr ds in
  let postproc := match item.2.2 with
                  | Some func => func
                  | None => λ t, t
                  end in
  Ok (item.1, postproc rend).

(** Lines 380-412 at one (batch, time) index. [index_masks] is
    [tf.transpose(shapes, [0,1,3,4,2])] with the pixel axes flattened:
    for every pixel an entry per node; [nodes_valid] has its last axis
    dropped. The output ['shape_constraints'] comes from the shape field
    builder unchanged and is left out. *)
Definition shape_decoder_outputs
    (Dims : DimensionDict) (nodes : list flat)
    (index_masks : list flat) (nodes_depths : depths_t) (nodes_valid : list R)
    (train zero_max valid_mask : bool)
    (attribute_dims_to_decode : list (string * attr_spec))
    (kwargs : gmap string R) : outcome decoded :=
  let logits :=
    resolve_depth_order index_masks nodes_depths nodes_valid false valid_mask
      kwargs in
  let logits := stabilise zero_max <$> logits in
  let probs := shape_probs kwargs <$> logits in
  rends ← mapM (render_attribute Dims nodes probs) attribute_dims_to_decode;
  Ok {| shapes := if train then soft probs else hard (argmax <$> probs);
        shape_logits := if train then soft logits else hard (argmax <$> logits);
        shapes_valid := (λ _, reduce_max nodes_valid) <$> index_masks;
        rendered := rends |}.

End Compositing.

(** The distribution as the specification states it, at a pixel with the
    distribution [probs] over nodes of validity [nodes_valid]. *)
Definition distribution_as_stated (nodes_valid : list R) (probs : flat) : Prop :=
  ((∃ v, v ∈ nodes_valid ∧ v ≠ 0) → sum probs = 1)
  ∧ ((∀ v, v ∈ nodes_valid → v = 0) → probs = zeros (length probs)).

End Shape.

(** ** The decoder wrapper *)

Module Wrapper.

(** The values of keyword arguments. *)
Inductive pyval :=
  | PyNone
  | PyBool (b : bool)
  | PyInt (z : Z)
  | PyFloat (r : R)
  | PyStr (s : string).

(** [d.update(other)]: the entries of [other] replace those of [d]. *)
Definition update (d other : gmap string pyval) : gmap string pyval :=
  other ∪ d.

Section Decoder.

(** Tensors, as the wrapper only passes them on. *)
Variable tensor : Type.

(** [Model.reshape_batch_time] of the base class, not part of
    [decoding.py], on a list of inputs ([merge=True]) and on a dictionary
    of outputs ([merge=False]). *)
Variable reshape_inputs : list tensor → gmap string pyval → list tensor.
Variable reshape_outputs :
  gmap string tensor → gmap string pyval → gmap string tensor.

(** A decoder: [self.params] are the [model_params] of the constructor,
    kept by the base class; [func] is the head, which returns a
    dictionary or a single tensor. *)
Record Decoder := {
  name : string;
  input_signature : list string;
  params : gmap string pyval;
  func : list tensor → gmap string pyval → gmap string tensor + tensor
}.

(** Lines 61-64, the closure [model] of [build_model].
<<
        def model( *args, **kwargs):
            call_params = kwargs
            call_params.update(self.params)
            return func( *args, **call_params)
>> *)
Definition call_params (self : Decoder) (kwargs : gmap string pyval)
  : gmap string pyval :=
  update kwargs (params self).

Definition model (self : Decoder) (args : list tensor)
    (kwargs : gmap string pyval) : gmap string tensor + tensor :=
  func self args (call_params self kwargs).

(** Lines 45-51. *)
Definition build_inputs (self : Decoder) (inputs : gmap string tensor)
    (input_mapping : gmap string string) : outcome (list tensor) :=
  _ ← assert (forallb (λ v, match input_mapping !! v with
                            | Some _ => true
                            | None => false
                            end) (input_signature self));
  mapM (λ nm,
          match input_mapping !! nm ≫= (inputs !!.) with
          | Some x => Ok x
          | None => Raise KeyError
          end) (input_signature self).

(** Lines 53-56. *)
Definition rename_outputs (self : Decoder) (outputs : gmap string tensor)
  : gmap string tensor :=
  list_to_map
    ((λ kv : string * tensor, (name self +:+ "/" +:+ kv.1, kv.2))
       <$> map_to_list outputs).

(** Lines 68-90. *)
Definition call (self : Decoder) (inputs : gmap string tensor) (train : bool)
    (input_mapping : gmap string string) (rename : bool)
    (kwargs : gmap string pyval) : outcome (gmap string tensor) :=
  let kwargs := <["train" := PyBool train]> kwargs in
  decoder_inputs ← build_inputs self inputs input_mapping;
  let decoder_inputs := reshape_inputs decoder_inputs kwargs in
  let outputs := model self decoder_inputs kwargs in
  let outputs := match outputs with
                 | inl d => d
                 | inr t => {["outputs" := t]}
                 end in
  let outputs := reshape_outputs outputs kwargs in
  Ok (rename_outputs self outputs).

(** Lines 92-130: the decoders of the three heads and of the image
    differences. Each class fixes the input signature (and
    [time_shared=False]) and passes [name] and [model_params] on; the
    head that it fixes is [model_func]. *)
Definition heads_signature : list string :=
  ["nodes"; "segment_ids"; "dimension_dict"].

Definition QtrDecoder (name : string) (model_params : gmap string pyval)
    (model_func : list tensor → gmap string pyval → gmap string tensor + tensor)
  : Decoder :=
  {| name := name; input_signature := heads_signature;
     params := model_params; func := model_func |}.

Definition FutureQtrDecoder (name : string) (model_params : gmap string pyval)
    (model_func : list tensor → gmap string pyval → gmap string tensor + tensor)
  : Decoder :=
  {| name := name; input_signature := heads_signature;
     params := model_params; func := model_func |}.

Definition QsrDecoder (name : string) (model_params : gmap string pyval)
    (model_func : list tensor → gmap string pyval → gmap string tensor + tensor)
  : Decoder :=
  {| name := name; input_signature := ["nodes"; "dimension_dict"; "size"];
     params := model_params; func := model_func |}.

Definition DeltaImages (name : string) (model_params : gmap string pyval)
    (model_func : list tensor → gmap string pyval → gmap string tensor + tensor)
  : Decoder :=
  {| name := name; input_signature := ["images"];
     params := model_params; func := model_func |}.

End Decoder.

(** The default [input_mapping={'inputs': 'features/outputs'}] of
    [__call__] (line 69). *)
Definition default_input_mapping : gmap string string :=
  {["inputs" := "features/outputs"]}.

End Wrapper.

(** * Properties *)

Lemma bind_Ok {A B} (a : A) (k : A → outcome B) : Ok a ≫= k = k a.
Proof. reflexivity. Qed.

(** ** Lists of fallible results *)

Section MapM.

Context {A B : Type} (f : A → outcome B).

Lemma mapM_nil : mapM f [] = Ok [].
Proof. reflexivity. Qed.

Lemma mapM_cons x l :
  mapM f (x :: l) = (y ← f x; k ← mapM f l; Ok (y :: k)).
Proof. reflexivity. Qed.

Lemma mapM_Ok l k : mapM f l = Ok k ↔ Forall2 (λ x y, f x = Ok y) l k.
Proof.
  revert k. induction l as [|x l IH]; intros k.
  - rewrite mapM_nil. split.
    + intros [= <-]. constructor.
    + intros H. by inversion H.
  - rewrite mapM_cons. split.
    + destruct (f x) as [y|e] eqn:Hx; [|done]. rewrite bind_Ok.
      destruct (mapM f l) as [k'|e] eqn:Hl; [|done]. rewrite bind_Ok.
      intros [= <-]. constructor; [done|]. by apply IH.
    + intros H. inversion H as [|? y ? k' Hx Hl]; subst.
      apply IH in Hl. by rewrite Hx, bind_Ok, Hl, bind_Ok.
Qed.

Lemma mapM_Raise l e : mapM f l = Raise e → ∃ x, x ∈ l ∧ f x = Raise e.
Proof.
  induction l as [|x l IH]; [done|]. rewrite mapM_cons.
  destruct (f x) as [y|e'] eqn:Hx.
  - rewrite bind_Ok. destruct (mapM f l) as [k'|e'] eqn:Hl; [done|].
    intros [= ->]. destruct (IH eq_refl) as (x' & Hin & Hx').
    exists x'. split; [by right|done].
  - intros [= ->]. exists x. split; [left|done].
Qed.

Lemma mapM_length l k : mapM f l = Ok k → length k = length l.
Proof. intros H%mapM_Ok. symmetry. by eapply Forall2_length. Qed.

End MapM.

(** ** Python slices *)

Section PySlices.

Context {A : Type}.
Implicit Types l : list A.

Lemma slice_first l : Py.slice (Some 0%Z) (Some 1%Z) l = take 1 l.
Proof.
  unfold Py.slice, Py.clamp_bound; simpl.
  rewrite drop_0, Nat.sub_0_r.
  destruct l as [|x [|y l]]; done.
Qed.

Lemma slice_last l : Py.slice (Some (-1)%Z) None l = drop (length l - 1) l.
Proof.
  unfold Py.slice, Py.clamp_bound; simpl.
  replace (Z.to_nat (Z.max 0 (Z.of_nat (length l) + -1)))
    with (length l - 1)%nat by lia.
  apply take_ge. rewrite length_drop. lia.
Qed.

Lemma slice_interior l :
  Py.slice (Some 1%Z) (Some (-1)%Z) l = take (length l - 2) (drop 1 l).
Proof.
  unfold Py.slice, Py.clamp_bound; simpl.
  replace (Z.to_nat (Z.max 0 (Z.of_nat (length l) + -1)))
    with (length l - 1)%nat by lia.
  destruct l as [|x [|y l]]; simpl; try done.
Qed.

End PySlices.

(** ** The combined flow field of [future_attribute_decoder] *)

Section CombineFlows.

Import Tensor Future.
Open Scope R_scope.

Implicit Types fwd bck : list field.

Lemma combine_time_axis_length fwd bck :
  length bck = length fwd → (2 ≤ length fwd)%nat →
  length (combine_time_axis fwd bck) = length fwd.
Proof.
  intros Hl HT. unfold combine_time_axis.
  rewrite slice_first, slice_last, !slice_interior.
  rewrite !length_app, !length_fmap, length_zip_with.
  rewrite !length_take, !length_drop. lia.
Qed.

Lemma combine_time_axis_first fwd bck :
  (1 ≤ length bck)%nat →
  combine_time_axis fwd bck !! 0%nat = neg <$> bck !! 0%nat.
Proof.
  intros Hl. unfold combine_time_axis. rewrite slice_first.
  destruct bck as [|k bck]; simpl in *; [lia|done].
Qed.

Lemma combine_time_axis_last fwd bck :
  length bck = length fwd → (2 ≤ length fwd)%nat →
  combine_time_axis fwd bck !! (length fwd - 1)%nat
  = fwd !! (length fwd - 1)%nat.
Proof.
  intros Hl HT. unfold combine_time_axis.
  rewrite slice_first, slice_last, !slice_interior.
  rewrite lookup_app_r; rewrite length_fmap, length_take; [|lia].
  rewrite lookup_app_r;
    rewrite length_fmap, length_zip_with, !length_take, !length_drop; [|lia].
  rewrite lookup_drop. f_equal. lia.
Qed.

Lemma combine_time_axis_interior fwd bck t x y :
  length bck = length fwd → (0 < t < length fwd - 1)%nat →
  fwd !! t = Some x → bck !! t = Some y →
  combine_time_axis fwd bck !! t = Some (scale 0.5 (sub x y)).
Proof.
  intros Hl Ht Hx Hy. unfold combine_time_axis.
  rewrite slice_first, slice_last, !slice_interior.
  rewrite lookup_app_r; rewrite length_fmap, length_take; [|lia].
  replace (1 `min` length bck)%nat with 1%nat by lia.
  rewrite lookup_app_l;
    [|rewrite length_fmap, length_zip_with, !length_take, !length_drop; lia].
  rewrite list_lookup_fmap, lookup_zip_with.
  rewrite !lookup_take_lt by lia. rewrite !lookup_drop.
  replace (1 + (t - 1))%nat with t by lia.
  by rewrite Hx, Hy.
Qed.

(** C1 (as amended). For forward and backward dense flow fields defined
    over the same T >= 2 time steps, the combined field has T time steps;
    at the first it is the negated backward field, at the last it is the
    forward field, and at every interior step it is half the difference
    forward minus backward, that is, the average of the forward field and
    the negated backward field. *)
Theorem combine_flows_boundary_rules
    (fwd_flows bck_flows : list (list field)) (b : nat) fwd bck :
  fwd_flows !! b = Some fwd → bck_flows !! b = Some bck →
  length bck = length fwd → (2 ≤ length fwd)%nat →
  ∃ flows,
    combine_flows fwd_flows bck_flows !! b = Some flows
    ∧ length flows = length fwd
    ∧ flows !! 0%nat = neg <$> bck !! 0%nat
    ∧ flows !! (length fwd - 1)%nat = fwd !! (length fwd - 1)%nat
    ∧ ∀ t x y, (0 < t < length fwd - 1)%nat →
        fwd !! t = Some x → bck !! t = Some y →
        flows !! t = Some (scale 0.5 (sub x y)).
Proof.
  intros Hf Hb Hl HT. exists (combine_time_axis fwd bck).
  split; [|split; [|split; [|split]]].
  - unfold combine_flows. by rewrite lookup_zip_with, Hf, Hb.
  - by apply combine_time_axis_length.
  - apply combine_time_axis_first. lia.
  - by apply combine_time_axis_last.
  - intros t x y Ht Hx Hy. by apply combine_time_axis_interior.
Qed.

(** The theorem at one batch element with three time steps of
    one-entry fields. *)
Lemma combine_flows_boundary_rules_witness :
  ∃ flows,
    combine_flows [[[1]; [2]; [3]]] [[[4]; [5]; [6]]] !! 0%nat = Some flows
    ∧ length flows = 3%nat
    ∧ flows !! 0%nat = neg <$> [[4]; [5]; [6]] !! 0%nat
    ∧ flows !! 2%nat = [[1]; [2]; [3]] !! 2%nat
    ∧ ∀ t x y, (0 < t < 2)%nat →
        [[1]; [2]; [3]] !! t = Some x → [[4]; [5]; [6]] !! t = Some y →
        flows !! t = Some (scale 0.5 (sub x y)).
Proof.
  apply (combine_flows_boundary_rules
           [[[1]; [2]; [3]]] [[[4]; [5]; [6]]] 0 [[1]; [2]; [3]] [[4]; [5]; [6]]);
    [reflexivity | reflexivity | reflexivity | simpl; lia].
Defined.

(** C1 (as stated) fails: with forward field 1 and backward field -1 at
    each of three time steps, the interior step of the combined field is
    0.5 * (1 - (-1)) = 1, whereas the average of the two fields is 0. *)
Lemma combine_flows_interior_not_average :
  ¬ boundary_rules_as_stated [[[1]; [1]; [1]]] [[[-1]; [-1]; [-1]]] 0.
Proof.
  intros H.
  destruct (H [[1]; [1]; [1]] [[-1]; [-1]; [-1]]
              (combine_time_axis [[1]; [1]; [1]] [[-1]; [-1]; [-1]]))
    as (_ & _ & Hint); try reflexivity.
  specialize (Hint 1%nat [1] [-1]). simpl in Hint.
  assert (Hlt : (0 < 1 < 2)%nat) by lia.
  specialize (Hint Hlt eq_refl eq_refl).
  vm_compute in Hint. injection Hint as Hint. lra.
Qed.

(** With a single time step the three slices give two steps, not one:
    the negated backward field followed by the forward field. *)
Lemma combine_time_axis_single_step (x y : field) :
  combine_time_axis [x] [y] = [neg y; x].
Proof. reflexivity. Qed.

End CombineFlows.

(** ** The per-node flows of [future_attribute_decoder] *)

Section NodeFlows.

Import Tensor Future Layout.
Open Scope R_scope.

Variable get_attr_dims :
  DimensionDict → nodes_t → string → list (Z * Z) → Z → bool → outcome nodes_t.

Lemma scale_nodes_opp (x : nodes_t) : scale_nodes (-1) x = neg_nodes x.
Proof.
  unfold scale_nodes, neg_nodes.
  apply list_fmap_ext; intros _ x1 _.
  apply list_fmap_ext; intros _ x2 _.
  apply list_fmap_ext; intros _ x3 _.
  apply list_fmap_ext; intros _ v _. lra.
Qed.

(** C8. Given the per-node forward flow that the layout yields: without
    [back_flows_dims] the per-node backward flow is the negation of the
    forward flow; with [back_flows_dims], a backward flow whose shape
    differs from that of the forward flow fails the assertion, and one of
    the same shape is used as it is. *)
Theorem node_flows_backward Dims nodes flows_dims key_pos back_flows_dims
    nodes_flows :
  get_attr_dims Dims nodes flows_dims.1 flows_dims.2 key_pos true
    = Ok nodes_flows →
  match back_flows_dims with
  | None =>
      node_flows get_attr_dims Dims nodes flows_dims key_pos None
      = Ok (nodes_flows, neg_nodes nodes_flows)
  | Some bfd =>
      ∀ nodes_back_flows,
        get_attr_dims Dims nodes bfd.1 bfd.2 (-1)%Z true = Ok nodes_back_flows →
        (shape nodes_back_flows ≠ shape nodes_flows →
         node_flows get_attr_dims Dims nodes flows_dims key_pos (Some bfd)
         = Raise AssertionError)
        ∧ (shape nodes_back_flows = shape nodes_flows →
           node_flows get_attr_dims Dims nodes flows_dims key_pos (Some bfd)
           = Ok (nodes_flows, nodes_back_flows))
  end.
Proof.
  intros Hf. destruct back_flows_dims as [bfd|].
  - intros nb Hb. unfold node_flows. rewrite Hf; simpl. rewrite Hb; simpl.
    split; intros Hs.
    + by rewrite bool_decide_eq_false_2.
    + by rewrite bool_decide_eq_true_2.
  - unfold node_flows. rewrite Hf; simpl. by rewrite scale_nodes_opp.
Qed.

End NodeFlows.

(** A backward flow of three columns against a forward flow of two
    fails the assertion. *)
Lemma node_flows_shape_mismatch :
  Future.node_flows
    (λ _ nodes _ ds _ _,
       Ok (fmap (M := list) (fmap (M := list) (fmap (M := list)
             (λ row, mjoin ((λ r : Z * Z, Py.slice (Some r.1) (Some r.2) row)
                              <$> ds)))) nodes))
    (Layout.empty 3) [[[[1; 2; 3]; [4; 5; 6]]]]%R
    ("pred_flows", [(0, 2)%Z]) 0 (Some ("pred_back_flows", [(0, 3)%Z]))
  = Raise AssertionError.
Proof. reflexivity. Qed.

(** The theorem with a layout oracle that returns the columns [0,2) of
    every node, and no backward flow. *)
Lemma node_flows_backward_witness :
  let get_attr_dims := λ (_ : Layout.DimensionDict) (nodes : Future.nodes_t)
      (_ : string) (_ : list (Z * Z)) (_ : Z) (_ : bool),
      Ok (fmap (M := list) (fmap (M := list) (fmap (M := list) (take 2))) nodes) in
  let nodes := [[[[1; 2; 3]; [4; 5; 6]]]]%R in
  get_attr_dims (Layout.empty 3) nodes "pred_flows" [(0, 2)%Z] 0%Z true
    = Ok [[[[1; 2]; [4; 5]]]]%R
  ∧ Future.node_flows get_attr_dims (Layout.empty 3) nodes
      ("pred_flows", [(0, 2)%Z]) 0 None
    = Ok ([[[[1; 2]; [4; 5]]]]%R, Future.neg_nodes [[[[1; 2]; [4; 5]]]]%R).
Proof.
  intros get_attr_dims nodes. split; [reflexivity|].
  apply (node_flows_backward get_attr_dims (Layout.empty 3) nodes
           ("pred_flows", [(0, 2)%Z]) 0%Z None [[[[1; 2]; [4; 5]]]]%R).
  reflexivity.
Defined.

(** ** The layout under the insertions of the heads *)

Section LayoutFacts.

Import Layout.

Implicit Types es : list (string * range).

Lemma lookup_entry_None k es : lookup_entry k es = None ↔ k ∉ es.*1.
Proof.
  induction es as [|[k' r] es IH]; simpl.
  - split; [intros _; apply not_elem_of_nil | done].
  - case_decide as Hk; subst.
    + split; [done|]. intros []. left.
    + rewrite IH, not_elem_of_cons. intuition congruence.
Qed.

Lemma lookup_entry_snoc k k' r es :
  lookup_entry k (es ++ [(k', r)])
  = match lookup_entry k es with
    | Some x => Some x
    | None => if decide (k' = k) then Some r else None
    end.
Proof.
  induction es as [|[k0 r0] es IH]; simpl; [done|].
  destruct (decide (k0 = k)); [done|apply IH].
Qed.

Lemma contiguous_snoc lo es k s e :
  contiguous lo (es ++ [(k, (s, e))])
  ↔ contiguous lo es ∧ s = upper lo es ∧ (s ≤ e)%Z.
Proof.
  revert lo. induction es as [|[k' [s' e']] es IH]; intros lo; simpl.
  - intuition lia.
  - rewrite IH. tauto.
Qed.

Lemma upper_snoc lo es k s e : upper lo (es ++ [(k, (s, e))]) = e.
Proof.
  revert lo. induction es as [|[k' [s' e']] es IH]; intros lo; simpl; [done|].
  apply IH.
Qed.

(** Ranges that follow each other end at or before the end of the last
    one. *)
Lemma contiguous_below lo es :
  contiguous lo es →
  (lo ≤ upper lo es)%Z ∧ Forall (λ kr, (kr.2.2 ≤ upper lo es)%Z) es.
Proof.
  revert lo. induction es as [|[k [s e]] es IH]; intros lo; simpl.
  - intros _. split; [lia|constructor].
  - intros (-> & Hle & Hc). destruct (IH e Hc) as [Hu Hall].
    split; [lia|]. constructor; [simpl; lia|done].
Qed.

(** The layout accepts a new name whose range begins where its ranges
    end, and puts it last. *)
Lemma insert_at_end Dims k s e :
  k ∉ keys Dims → contiguous 0 (entries Dims) →
  s = upper 0 (entries Dims) →
  insert Dims k (s, e)
  = Ok {| ndims := ndims Dims; entries := entries Dims ++ [(k, (s, e))] |}.
Proof.
  intros Hk Hc ->. unfold insert.
  apply lookup_entry_None in Hk. rewrite Hk.
  destruct (contiguous_below _ _ Hc) as [_ Hall].
  assert (Hfree : forallb
            (λ kr : string * range,
               negb (bool_decide (overlap kr.2 (upper 0 (entries Dims), e))))
            (entries Dims) = true).
  { apply forallb_forall. intros kr Hin.
    rewrite Forall_forall in Hall.
    apply list_elem_of_In, Hall in Hin.
    rewrite bool_decide_eq_false_2; [done|].
    unfold overlap. simpl. lia. }
  by rewrite Hfree.
Qed.

Lemma columns_used_nonneg m attrs : (0 ≤ Spatial.columns_used m attrs)%Z.
Proof. induction attrs as [|[attr [n f]] attrs IH]; simpl; nia. Qed.

(** The loop of [spatial_attribute_decoder] over attributes whose names
    differ from each other and from those of the layout: every
    insertion is accepted, and the attributes get consecutive ranges in
    their order, from the column [dims_used] on. *)
Lemma assign_all_spec m attrs (acc : DimensionDict * Z) :
  NoDup (keys acc.1 ++ attrs.*1) →
  contiguous 0 (entries acc.1) → upper 0 (entries acc.1) = acc.2 →
  ∃ acc',
    Spatial.assign_all m acc attrs = Ok acc'
    ∧ keys acc'.1 = keys acc.1 ++ attrs.*1
    ∧ contiguous 0 (entries acc'.1)
    ∧ upper 0 (entries acc'.1) = acc'.2
    ∧ acc'.2 = (acc.2 + Spatial.columns_used m attrs)%Z
    ∧ ndims acc'.1 = ndims acc.1
    ∧ ∀ k, k ∉ attrs.*1 →
        lookup_entry k (entries acc'.1) = lookup_entry k (entries acc.1).
Proof.
  revert acc. induction attrs as [|[attr [n f]] attrs IH]; intros acc; simpl.
  - intros _ Hs Hu. exists acc. rewrite app_nil_r.
    repeat split; try done. lia.
  - intros Hnd Hs Hu.
    assert (Hfresh : attr ∉ keys acc.1).
    { apply NoDup_app in Hnd as (_ & Hnd & _). intros Hin.
      apply (Hnd attr Hin). left. }
    unfold Spatial.assign_pred_dims, parse_dims; simpl.
    rewrite (insert_at_end acc.1 attr) by done. rewrite bind_Ok.
    set (acc1 := ({| ndims := ndims acc.1;
                     entries := entries acc.1
                       ++ [(attr, (acc.2,
                             acc.2 + Z.of_nat n
                               * (1 + Z.of_nat (Spatial.n_coeffs_per_dim m)))%Z)] |},
                  (acc.2
                   + (acc.2
                      + Z.of_nat n * (1 + Z.of_nat (Spatial.n_coeffs_per_dim m))
                      - acc.2))%Z)).
    destruct (IH acc1) as (acc' & Hrun & Hk & Hs' & Hu' & Hc & Hn & Hother).
    + unfold keys, acc1; simpl. rewrite fmap_app; simpl.
      by rewrite <- app_assoc.
    + unfold acc1; simpl. apply contiguous_snoc.
      split; [done|]. split; [done|]. nia.
    + unfold acc1; simpl. rewrite upper_snoc. lia.
    + exists acc'. split; [exact Hrun|]. repeat split; try done.
      * rewrite Hk. unfold keys, acc1; simpl. rewrite fmap_app; simpl.
        by rewrite <- app_assoc.
      * rewrite Hc. unfold acc1; simpl. lia.
      * intros k [Hne Hnin]%not_elem_of_cons. rewrite Hother by done.
        unfold acc1; simpl. rewrite lookup_entry_snoc.
        destruct (lookup_entry k (entries acc.1)); [done|].
        by rewrite decide_False.
Qed.

Lemma assign_all_app m (acc : DimensionDict * Z) attrs1 attrs2 :
  Spatial.assign_all m acc (attrs1 ++ attrs2)
  = (acc1 ← Spatial.assign_all m acc attrs1; Spatial.assign_all m acc1 attrs2).
Proof.
  revert acc. induction attrs1 as [|item attrs1 IH]; intros acc; simpl; [done|].
  destruct (Spatial.assign_pred_dims m acc item) as [acc1|e]; [|done].
  rewrite !bind_Ok. apply IH.
Qed.

(** The scratch layout of [spatial_attribute_decoder] for attributes
    whose names differ from each other and from the name of the
    remainder: it is built without a conflict, and every attribute gets
    [1 + n_coeffs_per_dim] columns for each of its decoded dimensions,
    after the columns of the attributes before it. *)
Lemma build_pred_dims_getitem D m lat_key before attr n f after :
  NoDup ((before ++ (attr, (n, f)) :: after).*1
         ++ [lat_key +:+ "_remainder"]) →
  ∃ predDims,
    Spatial.build_pred_dims D (before ++ (attr, (n, f)) :: after) m lat_key
    = Ok predDims
    ∧ getitem predDims attr
      = Ok (Spatial.columns_used m before,
            Spatial.columns_used m before
            + Z.of_nat n * (1 + Z.of_nat (Spatial.n_coeffs_per_dim m)))%Z.
Proof.
  intros Hnd. unfold Spatial.build_pred_dims.
  destruct (assign_all_spec m (before ++ (attr, (n, f)) :: after) (empty D, 0%Z))
    as (acc' & Hrun & Hk & Hs & Hu & _ & _ & _); simpl; try done.
  { by apply NoDup_app in Hnd as (? & _ & _). }
  rewrite Hrun, bind_Ok. simpl in Hk.
  assert (Hrem : lat_key +:+ "_remainder" ∉ keys acc'.1).
  { rewrite Hk. apply NoDup_app in Hnd as (_ & Hnd & _).
    intros Hin. apply (Hnd _ Hin). left. }
  rewrite (insert_at_end acc'.1) by done.
  eexists. split; [reflexivity|].
  unfold getitem; simpl. rewrite lookup_entry_snoc.
  (* the entry of [attr] after the whole loop *)
  rewrite assign_all_app in Hrun.
  rewrite fmap_app, fmap_cons in Hnd; simpl in Hnd.
  rewrite <- app_assoc in Hnd. apply NoDup_app in Hnd as (Hb & Hdisj & Hnd).
  simpl in Hnd. apply NoDup_cons in Hnd as [Hattr Hafter].
  destruct (assign_all_spec m before (empty D, 0%Z))
    as (acc1 & Hrun1 & Hk1 & Hs1 & Hu1 & Hc1 & _ & _); simpl; try done.
  rewrite Hrun1, bind_Ok in Hrun. simpl in Hrun, Hk1, Hc1.
  assert (Hfresh : attr ∉ keys acc1.1).
  { rewrite Hk1. intros Hin. apply (Hdisj _ Hin). left. }
  unfold Spatial.assign_pred_dims, parse_dims in Hrun; simpl in Hrun.
  rewrite (insert_at_end acc1.1 attr) in Hrun by done.
  rewrite !bind_Ok in Hrun.
  match type of Hrun with
  | Spatial.assign_all m ?acc2 after = _ =>
      destruct (assign_all_spec m after acc2)
        as (acc3 & Hrun3 & _ & _ & _ & _ & _ & Hother)
  end.
  - unfold keys; simpl. rewrite fmap_app; simpl. rewrite <- app_assoc; simpl.
    unfold keys in Hk1. rewrite Hk1.
    apply NoDup_app. split; [done|]. split.
    + intros k Hin Hk'. apply (Hdisj k Hin).
      apply elem_of_app. by left.
    + apply NoDup_cons. split.
      * rewrite not_elem_of_app in Hattr. by destruct Hattr.
      * by apply NoDup_app in Hafter as (? & _ & _).
  - simpl. apply contiguous_snoc. split; [done|]. split; [done|]. nia.
  - simpl. rewrite upper_snoc. lia.
  - rewrite Hrun3 in Hrun. injection Hrun as <-.
    rewrite Hother; simpl.
    + rewrite lookup_entry_snoc.
      apply lookup_entry_None in Hfresh. unfold keys in Hfresh.
      rewrite Hfresh, decide_True by done. by rewrite Hc1.
    + rewrite not_elem_of_app in Hattr. by destruct Hattr.
Qed.

End LayoutFacts.

(** ** The distribution over nodes of [shape_decoder] *)

Section Softmax.

Import Tensor Shape.
Open Scope R_scope.

Implicit Types x l : flat.

Lemma sum_nil : sum [] = 0.
Proof. reflexivity. Qed.

Lemma sum_cons v l : sum (v :: l) = v + sum l.
Proof. reflexivity. Qed.

Lemma sum_zeros n : sum (zeros n) = 0.
Proof.
  induction n as [|n IH]; [done|].
  change (zeros (S n)) with (0 :: zeros n). rewrite sum_cons, IH. lra.
Qed.

Lemma sum_div l s : sum ((λ v, v / s) <$> l) = sum l / s.
Proof.
  induction l as [|v l IH]; [rewrite fmap_nil, sum_nil; lra|].
  rewrite fmap_cons, !sum_cons, IH. lra.
Qed.

Lemma sum_exp_pos l : l ≠ [] → 0 < sum (exp <$> l).
Proof.
  assert (Hnn : ∀ l', 0 <= sum (exp <$> l')).
  { induction l' as [|v l' IH]; [rewrite fmap_nil, sum_nil; lra|].
    rewrite fmap_cons, sum_cons. pose proof (exp_pos v). lra. }
  destruct l as [|v l]; [done|]. intros _.
  rewrite fmap_cons, sum_cons.
  pose proof (exp_pos v). pose proof (Hnn l). lra.
Qed.

Lemma softmax_sum l : l ≠ [] → sum (softmax l) = 1.
Proof.
  intros Hl. unfold softmax. rewrite sum_div.
  pose proof (sum_exp_pos l Hl). field. lra.
Qed.

Lemma softmax_length l : length (softmax l) = length l.
Proof. unfold softmax. by rewrite !length_fmap. Qed.

Lemma stabilise_length zero_max l : length (stabilise zero_max l) = length l.
Proof. destruct zero_max; simpl; [by rewrite length_fmap|done]. Qed.

Lemma shape_probs_length kwargs l : length (shape_probs kwargs l) = length l.
Proof. unfold shape_probs. by rewrite softmax_length, length_fmap. Qed.

Lemma shape_probs_sum kwargs l : l ≠ [] → sum (shape_probs kwargs l) = 1.
Proof.
  intros Hl. apply softmax_sum. by destruct l.
Qed.

Lemma shape_probs_not_zeros kwargs l :
  l ≠ [] → shape_probs kwargs l ≠ zeros (length (shape_probs kwargs l)).
Proof.
  intros Hl Hz. pose proof (shape_probs_sum kwargs l Hl) as Hs.
  rewrite Hz, sum_zeros in Hs. lra.
Qed.

Lemma reduce_max_zeros l : l ≠ [] → Forall (λ v, v = 0) l → reduce_max l = 0.
Proof.
  destruct l as [|v l]; [done|]. intros _ Hall.
  apply Forall_cons in Hall as [-> Hall]. simpl.
  induction Hall as [|w l -> _ IH]; simpl; [done|].
  by rewrite Rmax_left by lra.
Qed.

Lemma argmax_from_spec best_i best i l :
  (argmax_from best_i best i l = best_i ∧ Forall (λ v, v <= best) l)
  ∨ ∃ j v,
      argmax_from best_i best i l = (i + j)%nat
      ∧ l !! j = Some v ∧ best < v
      ∧ Forall (λ w, w <= v) l
      ∧ ∀ j' w, (j' < j)%nat → l !! j' = Some w → w < v.
Proof.
  revert best_i best i. induction l as [|y ys IH]; intros best_i best i; simpl.
  - left. by split.
  - destruct (Rlt_dec best y) as [Hlt|Hge].
    + right. destruct (IH i y (S i)) as [[Hk Hall]|(j & v & Hk & Hj & Hv & Hall & Hb)].
      * exists 0%nat, y. rewrite Hk, Nat.add_0_r.
        repeat split; try done.
        -- constructor; [lra|done].
        -- intros j' w Hj'. lia.
      * exists (S j), v. rewrite Hk.
        repeat split; try done; [lia|lra| |].
        -- constructor; [lra|done].
        -- intros [|j'] w Hj' Hw; simpl in Hw.
           ++ injection Hw as <-. done.
           ++ apply (Hb j'); [lia|done].
    + destruct (IH best_i best (S i)) as [[Hk Hall]|(j & v & Hk & Hj & Hv & Hall & Hb)].
      * left. split; [done|]. constructor; [lra|done].
      * right. exists (S j), v. rewrite Hk.
        repeat split; try done; [lia| |].
        -- constructor; [lra|done].
        -- intros [|j'] w Hj' Hw; simpl in Hw.
           ++ injection Hw as <-. lra.
           ++ apply (Hb j'); [lia|done].
Qed.

(** [tf.argmax] gives the index of a largest entry, the first such. *)
Lemma argmax_spec l :
  l ≠ [] →
  ∃ v, l !! argmax l = Some v
       ∧ Forall (λ w, w <= v) l
       ∧ ∀ j w, (j < argmax l)%nat → l !! j = Some w → w < v.
Proof.
  destruct l as [|x xs]; [done|]. intros _. unfold argmax.
  destruct (argmax_from_spec 0 x 1 xs)
    as [[Hk Hall]|(j & v & Hk & Hj & Hv & Hall & Hb)]; rewrite Hk.
  - exists x. repeat split; try done.
    + constructor; [lra|done].
    + intros j w Hj. lia.
  - exists v. repeat split; try done.
    + constructor; [lra|done].
    + intros [|j'] w Hj' Hw; simpl in Hw.
      * injection Hw as <-. done.
      * apply (Hb j'); [lia|done].
Qed.

(** Among equal largest entries the first index is taken. *)
Lemma argmax_first_of_equals : argmax [0; 1; 1] = 1%nat.
Proof.
  unfold argmax; simpl.
  destruct (Rlt_dec 0 1) as [_|Hn]; [|lra].
  destruct (Rlt_dec 1 1) as [Hlt|_]; [lra|done].
Qed.

End Softmax.

Section ShapeHead.

Import Tensor Layout Shape.
Open Scope R_scope.

Variable depths_t : Type.
Variable resolve_depth_order :
  list flat → depths_t → list R → bool → bool → gmap string R → list flat.
Variable render_attrs_from_segment_weights :
  list flat → list flat → list (Z * Z) → list flat.
Variable get_attr_dims :
  DimensionDict → list flat → string → list (Z * Z) → Z → outcome (list flat).

Abbreviation shape_decoder_outputs :=
  (shape_decoder_outputs depths_t resolve_depth_order
     render_attrs_from_segment_weights get_attr_dims).

(** C2 (as amended). In training mode the 'shapes' output of
    [shape_decoder] sums to 1 over the node axis at every pixel that has
    an entry for at least one node (in exact arithmetic; up to rounding
    in [float32]), whether or not any node is valid, so it is not the
    zero vector where no node is valid. That no node is valid shows in
    the 'shapes_valid' output, which is then zero at every pixel. *)
Theorem shape_decoder_distribution Dims nodes index_masks nodes_depths
    nodes_valid zero_max valid_mask attribute_dims_to_decode kwargs d :
  shape_decoder_outputs Dims nodes index_masks nodes_depths nodes_valid
    true zero_max valid_mask attribute_dims_to_decode kwargs = Ok d →
  ∃ probs,
    shapes d = soft probs
    ∧ (∀ p, p ∈ probs → p ≠ [] → sum p = 1 ∧ p ≠ zeros (length p))
    ∧ (nodes_valid ≠ [] → Forall (λ v, v = 0) nodes_valid →
       Forall (λ v, v = 0) (shapes_valid d)).
Proof.
  unfold Shape.shape_decoder_outputs. intros Hd.
  destruct (mapM _ attribute_dims_to_decode) as [rends|e]; simpl in Hd; [|done].
  injection Hd as <-; simpl. eexists. split; [reflexivity|]. split.
  - intros p Hp Hne.
    apply list_elem_of_fmap in Hp as (l & -> & _).
    assert (Hl : l ≠ []).
    { intros ->. by apply Hne. }
    split; [by apply shape_probs_sum|by apply shape_probs_not_zeros].
  - intros Hne Hall. apply Forall_fmap, Forall_forall. intros x _; simpl.
    by apply reduce_max_zeros.
Qed.

(** The softmax entry by entry: the exponential of the entry over the
    sum of the exponentials. *)
Lemma shape_probs_entries kwargs (l : flat) :
  let beta := default 1 (kwargs !! "beta") in
  length (shape_probs kwargs l) = length l
  ∧ ∀ k v, l !! k = Some v →
      shape_probs kwargs l !! k
      = Some (exp (v * beta) / sum ((λ w, exp (w * beta)) <$> l)).
Proof.
  intros beta. split; [apply shape_probs_length|].
  intros k v Hk. unfold shape_probs, softmax. fold beta.
  rewrite <- !list_fmap_compose, list_lookup_fmap, Hk. reflexivity.
Qed.

(** C3. With [train=False] the 'shapes' output of [shape_decoder] is one
    node index for every pixel, the first index of a largest entry of
    [shape_probs] along the node axis; with [train=True] it is
    [shape_probs], the softmax of the logits times the factor [beta]:
    the entry of node [k] is [exp (beta * logit k)] over the sum of
    these exponentials over the nodes of the pixel. In both modes every
    requested attribute is the post-processing of what the compositor
    renders from the columns of the attribute with [shape_probs] as the
    weights. *)
Theorem shape_decoder_shapes Dims nodes index_masks nodes_depths nodes_valid
    train zero_max valid_mask attribute_dims_to_decode kwargs d :
  shape_decoder_outputs Dims nodes index_masks nodes_depths nodes_valid
    train zero_max valid_mask attribute_dims_to_decode kwargs = Ok d →
  let beta := default 1 (kwargs !! "beta") in
  let logits :=
    stabilise zero_max
      <$> resolve_depth_order index_masks nodes_depths nodes_valid false
            valid_mask kwargs in
  ∃ probs : list flat,
    Forall2 (λ l p : flat,
               length p = length l
               ∧ ∀ k v, l !! k = Some v →
                   p !! k
                   = Some (exp (v * beta)
                           / sum ((λ w, exp (w * beta)) <$> l)))
      logits probs
    ∧ (train = true → shapes d = soft probs)
    ∧ (train = false →
       ∃ labels,
         shapes d = hard labels
         ∧ length labels = length probs
         ∧ ∀ i p, probs !! i = Some p → p ≠ [] →
             ∃ k v, labels !! i = Some k
                    ∧ p !! k = Some v
                    ∧ Forall (λ w, w <= v) p
                    ∧ ∀ j w, (j < k)%nat → p !! j = Some w → w < v)
    ∧ Forall2 (λ (item : string * attr_spec) (rend : string * list flat),
                 let ds := match item.2.1 with
                           | inl n => [(0, Z.of_nat n)%Z]
                           | inr ds => ds
                           end in
                 let postproc := match item.2.2 with
                                 | Some func => func
                                 | None => λ t, t
                                 end in
                 ∃ nodes_attr,
                   get_attr_dims Dims nodes item.1 ds (-1)%Z = Ok nodes_attr
                   ∧ rend
                     = (item.1,
                        postproc
                          (render_attrs_from_segment_weights probs nodes_attr
                             ds)))
        attribute_dims_to_decode (rendered d).
Proof.
  intros Hd beta logits. unfold Shape.shape_decoder_outputs in Hd.
  fold logits in Hd. set (probs := shape_probs kwargs <$> logits) in *.
  destruct (mapM _ attribute_dims_to_decode) as [rends|e] eqn:Hrends;
    simpl in Hd; [|done].
  injection Hd as <-; simpl. exists probs.
  split; [|split; [|split]].
  - unfold probs. apply Forall2_fmap_r, Forall_Forall2_diag, Forall_forall.
    intros l _. apply shape_probs_entries.
  - by intros ->.
  - intros ->. eexists. split; [reflexivity|].
    split; [by rewrite length_fmap|].
    intros i p Hp Hne. rewrite list_lookup_fmap, Hp; simpl.
    destruct (argmax_spec p Hne) as (v & Hv & Hall & Hfirst).
    by exists (argmax p), v.
  - apply mapM_Ok in Hrends. eapply Forall2_impl; [exact Hrends|].
    intros item rend Hitem. unfold render_attribute in Hitem.
    destruct (get_attr_dims Dims nodes item.1 _ _) as [nodes_attr|e];
      [|done].
    rewrite bind_Ok in Hitem. injection Hitem as <-. by exists nodes_attr.
Qed.

End ShapeHead.

(** C2 (as stated) fails: at a pixel of two nodes, both invalid, no
    logits whatever make the softmax the zero vector. *)
Lemma shape_probs_never_zero_vector :
  ¬ ∃ logits : list R,
      length logits = 2%nat
      ∧ Shape.distribution_as_stated [0; 0]%R
          (Shape.shape_probs ∅ (Shape.stabilise false logits)).
Proof.
  intros (logits & Hlen & _ & Hzero).
  assert (Hne : logits ≠ []) by (by destruct logits).
  apply (shape_probs_not_zeros ∅ logits Hne). apply Hzero.
  intros v Hv. apply list_elem_of_In in Hv. simpl in Hv.
  destruct Hv as [<-|[<-|[]]]; reflexivity.
Qed.

(** The theorem at one pixel of two invalid nodes, where the depth
    ordering returns the occupancy values as logits. *)
Lemma shape_decoder_distribution_witness :
  ∃ d,
    Shape.shape_decoder_outputs unit
      (λ index_masks _ _ _ _ _, index_masks) (λ weights _ _, weights)
      (λ _ nodes _ _ _, Ok nodes)
      (Layout.empty 1) [[1]; [1]]%R [[0; 0]]%R () [0; 0]%R
      true false true [] ∅ = Ok d
    ∧ ∃ probs,
        Shape.shapes d = Shape.soft probs
        ∧ (∀ p, p ∈ probs → p ≠ [] →
             Tensor.sum p = 1%R ∧ p ≠ Tensor.zeros (length p))
        ∧ ([0; 0]%R ≠ [] → Forall (λ v, v = 0%R) [0; 0]%R →
           Forall (λ v, v = 0%R) (Shape.shapes_valid d)).
Proof.
  eexists. split; [reflexivity|].
  eapply (shape_decoder_distribution unit
            (λ index_masks _ _ _ _ _, index_masks) (λ weights _ _, weights)
            (λ _ nodes _ _ _, Ok nodes)
            (Layout.empty 1) [[1]; [1]]%R [[0; 0]]%R () [0; 0]%R
            false true [] ∅).
  reflexivity.
Defined.

(** The theorem in both modes at one pixel of two nodes with the
    logits 0 and 1 and one attribute to decode, where the depth ordering
    returns the occupancy values as logits and the compositor returns
    its weights: in training mode 'shapes' and the rendered attribute
    are the distribution, in evaluation mode 'shapes' is one label and
    the rendered attribute is as in training mode. *)
Lemma shape_decoder_shapes_witness :
  let run := λ train,
    Shape.shape_decoder_outputs unit
      (λ index_masks _ _ _ _ _, index_masks) (λ weights _ _, weights)
      (λ _ nodes _ _ _, Ok nodes)
      (Layout.empty 1) [[1]; [1]]%R [[0; 1]]%R () [1; 1]%R
      train false true [("pred_images", (inl 1%nat, None))] ∅ in
  (∃ d probs,
     run true = Ok d
     ∧ Shape.shapes d = Shape.soft probs
     ∧ Shape.rendered d = [("pred_images", probs)])
  ∧ (∃ d probs labels,
       run false = Ok d
       ∧ Shape.shapes d = Shape.hard labels
       ∧ length labels = 1%nat
       ∧ Shape.rendered d = [("pred_images", probs)]).
Proof.
  intros run. split.
  - destruct (shape_decoder_shapes unit
                (λ index_masks _ _ _ _ _, index_masks) (λ weights _ _, weights)
                (λ _ nodes _ _ _, Ok nodes)
                (Layout.empty 1) [[1]; [1]]%R [[0; 1]]%R () [1; 1]%R
                true false true [("pred_images", (inl 1%nat, None))] ∅ _
                eq_refl)
      as (probs & _ & Hsoft & _ & Hrend).
    eexists _, probs. split; [reflexivity|]. split; [exact (Hsoft eq_refl)|].
    apply Forall2_cons_inv_l in Hrend as (rend & rends & Hr & Hnil & Heq).
    apply Forall2_nil_inv_l in Hnil. subst rends.
    destruct Hr as (nodes_attr & _ & ->). exact Heq.
  - destruct (shape_decoder_shapes unit
                (λ index_masks _ _ _ _ _, index_masks) (λ weights _ _, weights)
                (λ _ nodes _ _ _, Ok nodes)
                (Layout.empty 1) [[1]; [1]]%R [[0; 1]]%R () [1; 1]%R
                false false true [("pred_images", (inl 1%nat, None))] ∅ _
                eq_refl)
      as (probs & Hprobs & _ & Hhard & Hrend).
    destruct (Hhard eq_refl) as (labels & Hs & Hl & _).
    eexists _, probs, labels. split; [reflexivity|]. split; [exact Hs|].
    split.
    + rewrite Hl. apply Forall2_length in Hprobs. by rewrite <- Hprobs.
    + apply Forall2_cons_inv_l in Hrend as (rend & rends & Hr & Hnil & Heq).
      apply Forall2_nil_inv_l in Hnil. subst rends.
      destruct Hr as (nodes_attr & _ & ->). exact Heq.
Defined.

(** ** The polynomial rendering of [spatial_attribute_decoder] *)

Section Rendering.

Import Tensor Layout Spatial.
Open Scope R_scope.

Implicit Types x row : flat.

Lemma scale_1 x : scale 1 x = x.
Proof.
  unfold scale. rewrite <- (list_fmap_id x) at 2.
  apply list_fmap_ext. intros _ v _; simpl. lra.
Qed.

Lemma scale_zeros d n : scale d (zeros n) = zeros n.
Proof.
  unfold scale, zeros. rewrite fmap_replicate. f_equal. lra.
Qed.

Lemma scale_0 x : scale 0 x = zeros (length x).
Proof.
  unfold scale, zeros. induction x as [|v x IH]; [done|].
  rewrite fmap_cons, IH; simpl. f_equal. lra.
Qed.

Lemma add_zeros n : add (zeros n) (zeros n) = zeros n.
Proof.
  unfold add, zeros. induction n as [|n IH]; simpl; [done|].
  rewrite IH. f_equal. lra.
Qed.

Lemma split_1 x : split 1 x = Ok [x].
Proof.
  unfold split. rewrite Nat.mod_1_r, Nat.div_1_r; simpl.
  by rewrite firstn_all.
Qed.

Lemma slice_zeros start stop n :
  ∃ w, Py.slice start stop (zeros n) = zeros w.
Proof.
  unfold Py.slice, zeros. rewrite drop_replicate, take_replicate. eauto.
Qed.

Lemma parts_zeros width m n :
  (width * m ≤ n)%nat →
  parts width m (zeros n) = replicate m (zeros width).
Proof.
  revert n. induction m as [|m IH]; intros n Hle; simpl; [done|].
  unfold zeros in *. rewrite take_replicate, drop_replicate.
  rewrite IH by lia. do 2 f_equal. lia.
Qed.

Lemma split_zeros m n :
  (0 < m)%nat → split m (zeros (n * m)) = Ok (replicate m (zeros n)).
Proof.
  intros Hm. unfold split.
  replace (length (zeros (n * m))) with (n * m)%nat
    by (unfold zeros; by rewrite length_replicate).
  rewrite Nat.Div0.mod_mul, Nat.div_mul by lia; simpl.
  f_equal. apply parts_zeros. lia.
Qed.

Lemma add_n_zeros w (ds : list R) :
  ds ≠ [] →
  add_n (zip_with (λ av d, scale d av) (replicate (length ds) (zeros w)) ds)
  = zeros w.
Proof.
  destruct ds as [|d ds]; [done|]. intros _; simpl.
  rewrite scale_zeros.
  induction ds as [|d' ds IH]; simpl; [done|].
  by rewrite scale_zeros, add_zeros.
Qed.

Lemma deltas_length m dH dW : length (deltas m dH dW) = S (n_coeffs_per_dim m).
Proof. by destruct m. Qed.

Lemma expansion_unfold m predDims attr r row dH dW :
  getitem predDims attr = Ok r →
  expansion m predDims attr row dH dW
  = (attr_vec ← split (1 + n_coeffs_per_dim m)
                  (Py.slice (Some r.1) (Some r.2) row);
     Ok (add_n (zip_with (λ av d, scale d av) attr_vec (deltas m dH dW)))).
Proof.
  intros Hr. unfold expansion, get_tensor_from_attrs. by rewrite Hr.
Qed.

Lemma slice_length start stop row n :
  length (Py.slice start stop (zeros (length row))) = n →
  Py.slice start stop (zeros (length row)) = zeros n
  ∧ length (Py.slice start stop row) = n.
Proof.
  unfold Py.slice, zeros.
  rewrite drop_replicate, take_replicate, !length_replicate.
  rewrite length_take, length_drop. intros <-. by split.
Qed.

(** The expansion of a zero latent vector is zero: [n] decoded
    dimensions of [1 + n_coeffs_per_dim] coefficients each. *)
Lemma expansion_zeros m predDims attr r row n dH dW :
  getitem predDims attr = Ok r →
  length (Py.slice (Some r.1) (Some r.2) row)
  = (n * (1 + n_coeffs_per_dim m))%nat →
  expansion m predDims attr (zeros (length row)) dH dW = Ok (zeros n).
Proof.
  intros Hr Hlen. rewrite (expansion_unfold _ _ _ r) by done.
  destruct (slice_length (Some r.1) (Some r.2) row
              (length (Py.slice (Some r.1) (Some r.2) (zeros (length row))))
              eq_refl) as [Hz Hl].
  rewrite Hz, <- Hl, Hlen, split_zeros, bind_Ok by lia. f_equal.
  replace (1 + n_coeffs_per_dim m)%nat with (length (deltas m dH dW))
    by apply deltas_length.
  apply add_n_zeros. by destruct m.
Qed.

(** With [method='constant'] the expansion is the slice of the
    attribute, whatever the offset. *)
Lemma expansion_constant predDims attr row dH dW :
  expansion constant predDims attr row dH dW
  = get_tensor_from_attrs predDims row attr.
Proof.
  destruct (getitem predDims attr) as [r|e] eqn:Hr.
  - rewrite (expansion_unfold _ _ _ r) by done.
    unfold get_tensor_from_attrs. rewrite Hr.
    change (1 + n_coeffs_per_dim constant)%nat with 1%nat.
    rewrite split_1, bind_Ok; simpl. by rewrite scale_1.
  - unfold expansion, get_tensor_from_attrs. by rewrite Hr.
Qed.

End Rendering.

Section Decoding.

Import Tensor Layout Spatial.
Open Scope R_scope.

(** Evaluates the code on concrete tensors in [H] and leaves the real
    arithmetic as it is. *)
Ltac run_in H :=
  cbv -[Rplus Rmult Rminus Ropp Rinv Rdiv IZR Rmin Rmax exp sqrt] in H.

Ltac run :=
  cbv -[Rplus Rmult Rminus Ropp Rinv Rdiv IZR Rmin Rmax exp sqrt].

Lemma broadcast_mul_scalar (x : flat) v : broadcast_mul x [v] = scale v x.
Proof. by destruct x as [|a [|b x]]. Qed.

(** C5 (as amended). With [method='constant'] the value decoded at a
    sampled pixel is the post-processing function of the attribute
    applied to the bias coefficients that the pixel's latent vector holds
    for the attribute, and it does not depend on the offset of the pixel
    from the centroid; the latent vector of the pixel is that of the
    owning node where the validity is 1. *)
Theorem constant_decoding latent_vec valid_nodes segment_ids valid_segments
    hw predDims attr func dH dW :
  let node := get_image_value 0%Z segment_ids hw in
  let row := latent_vector_to_decode latent_vec valid_nodes segment_ids
               valid_segments hw in
  render_attr constant predDims attr func row dH dW
  = func <$> get_tensor_from_attrs predDims row attr
  ∧ (∀ dH' dW',
       render_attr constant predDims attr func row dH' dW'
       = render_attr constant predDims attr func row dH dW)
  ∧ (valid_vector_to_decode valid_nodes segment_ids valid_segments hw = [1] →
     row = gather [] latent_vec node).
Proof.
  intros node row. unfold render_attr. split; [|split].
  - by rewrite expansion_constant.
  - intros dH' dW'. by rewrite !expansion_constant.
  - intros Hv. unfold row, latent_vector_to_decode. rewrite Hv.
    by rewrite broadcast_mul_scalar, scale_1.
Qed.

(** The theorem at the pixel of a valid node with the coefficient 7 for
    the default attribute 'pred_depths', in the layout that the head
    builds for this attribute in a latent vector of width 1. *)
Lemma constant_decoding_witness :
  let predDims :=
    {| ndims := 1;
       entries := [("pred_depths", (0, 1)%Z);
                   ("unary_attrs_remainder", (1, 1)%Z)] |} in
  let row := latent_vector_to_decode [[7]] [[1]] [[0%Z]] [[1]] (0, 0)%Z in
  build_pred_dims 1 [("pred_depths", (1%nat, pred_depths_postproc))]
    constant "unary_attrs" = Ok predDims
  ∧ valid_vector_to_decode [[1]] [[0%Z]] [[1]] (0, 0)%Z = [1]
  ∧ row = [7]
  ∧ render_attr constant predDims "pred_depths" pred_depths_postproc row 2 3
    = Ok (pred_depths_postproc row).
Proof.
  intros predDims row. split; [reflexivity|].
  destruct (constant_decoding [[7]] [[1]] [[0%Z]] [[1]] (0, 0)%Z predDims
              "pred_depths" pred_depths_postproc 2 3) as (Hdec & _ & Hrow).
  assert (Hv : valid_vector_to_decode [[1]] [[0%Z]] [[1]] (0, 0)%Z = [1]).
  { run. f_equal. lra. }
  split; [exact Hv|]. split; [exact (Hrow Hv)|exact Hdec].
Defined.

(** C5 (as stated) fails: for the default attribute 'pred_depths', whose
    post-processing is the minimum with -0.1, a valid node with the bias
    coefficient 0 decodes to -0.1. The layout is the one of the witness
    above: 'pred_depths' has the column [0,1) of the latent vector. *)
Lemma constant_decoding_is_postprocessed :
  ¬ constant_as_stated
      {| ndims := 1;
         entries := [("pred_depths", (0, 1)%Z);
                     ("unary_attrs_remainder", (1, 1)%Z)] |}
      "pred_depths" pred_depths_postproc [[0]] [[1]] [[0%Z]] [[1]] (0, 0)%Z.
Proof.
  intros H. specialize (H 0 0). unfold render_attr in H.
  rewrite expansion_constant in H. run_in H.
  injection H as H.
  match type of H with
  | Rmin ?a ?b = _ => pose proof (Rmin_r a b)
  end.
  lra.
Qed.

(** C6 (as amended). At a sampled pixel whose owning node is marked
    invalid, or whose segment is invalid, the returned validity is zero
    and the latent vector is zeroed, so that the polynomial is the zero
    vector and the decoded value is the post-processing function of the
    attribute applied to the zero vector, for an attribute of [n] decoded
    dimensions. *)
Theorem invalid_pixel_decoding m latent_vec valid_nodes segment_ids
    valid_segments hw predDims attr func r n dH dW v :
  let node := get_image_value 0%Z segment_ids hw in
  let row := latent_vector_to_decode latent_vec valid_nodes segment_ids
               valid_segments hw in
  gather [] valid_nodes node = [v] →
  v = 0 ∨ get_image_value 0 valid_segments hw = 0 →
  getitem predDims attr = Ok r →
  length (Py.slice (Some r.1) (Some r.2) (gather [] latent_vec node))
  = (n * (1 + n_coeffs_per_dim m))%nat →
  valid_vector_to_decode valid_nodes segment_ids valid_segments hw = [0]
  ∧ expansion m predDims attr row dH dW = Ok (zeros n)
  ∧ render_attr m predDims attr func row dH dW = Ok (func (zeros n)).
Proof.
  intros node row Hnode Hzero Hr Hlen.
  assert (Hv : valid_vector_to_decode valid_nodes segment_ids valid_segments hw
               = [0]).
  { unfold valid_vector_to_decode. fold node. rewrite Hnode; simpl. f_equal.
    destruct Hzero as [->| ->]; lra. }
  split; [done|].
  unfold row, latent_vector_to_decode. fold node.
  rewrite Hv, broadcast_mul_scalar, scale_0.
  pose proof (expansion_zeros m predDims attr r _ n dH dW Hr Hlen) as Hw.
  split; [done|]. unfold render_attr. by rewrite Hw.
Qed.

(** The theorem at a pixel of the second node, which is marked invalid,
    with the default attribute 'pred_depths' and a linear expansion, in
    the layout that the head builds for them in a latent vector of
    width 3. *)
Lemma invalid_pixel_decoding_witness :
  let predDims :=
    {| ndims := 3;
       entries := [("pred_depths", (0, 3)%Z);
                   ("unary_attrs_remainder", (3, 3)%Z)] |} in
  let row := latent_vector_to_decode [[3; 8; 2]; [4; 9; 1]] [[1]; [0]]
               [[0; 0]; [1; 1]]%Z [[1; 1]; [1; 1]] (1, 0)%Z in
  build_pred_dims 3 [("pred_depths", (1%nat, pred_depths_postproc))]
    linear "unary_attrs" = Ok predDims
  ∧ valid_vector_to_decode [[1]; [0]] [[0; 0]; [1; 1]]%Z [[1; 1]; [1; 1]] (1, 0)%Z
  = [0]
  ∧ expansion linear predDims "pred_depths" row 0 0 = Ok (zeros 1)
  ∧ render_attr linear predDims "pred_depths" pred_depths_postproc row 0 0
    = Ok (pred_depths_postproc (zeros 1)).
Proof.
  intros predDims row. split; [reflexivity|].
  apply (invalid_pixel_decoding linear [[3; 8; 2]; [4; 9; 1]] [[1]; [0]]
           [[0; 0]; [1; 1]]%Z [[1; 1]; [1; 1]] (1, 0)%Z predDims "pred_depths"
           pred_depths_postproc (0, 3)%Z 1 0 0 0).
  - reflexivity.
  - left. reflexivity.
  - reflexivity.
  - reflexivity.
Defined.

(** C6 (as stated) fails: at a pixel of a node marked invalid, the
    default attribute 'pred_depths' decodes to the minimum of 0 and
    -0.1, which is not zero. The layout is the one of the witness above:
    'pred_depths' has the columns [0,3) of the latent vector. *)
Lemma invalid_pixel_is_postprocessed :
  ¬ zeroed_as_stated linear
      {| ndims := 3;
         entries := [("pred_depths", (0, 3)%Z);
                     ("unary_attrs_remainder", (3, 3)%Z)] |}
      "pred_depths" pred_depths_postproc
      [[3; 8; 2]; [4; 9; 1]] [[1]; [0]] [[0; 0]; [1; 1]]%Z [[1; 1]; [1; 1]]
      (1, 0)%Z.
Proof.
  intros H. unfold zeroed_as_stated in H.
  assert (Hv : valid_vector_to_decode [[1]; [0]] [[0; 0]; [1; 1]]%Z
                 [[1; 1]; [1; 1]] (1, 0)%Z = [0]).
  { run. f_equal. lra. }
  specialize (H Hv 0 0 _ eq_refl). run_in H.
  injection H as H.
  match type of H with
  | Rmin ?a ?b = _ => pose proof (Rmin_r a b)
  end.
  lra.
Qed.

End Decoding.

(** ** The sampling of [spatial_attribute_decoder] *)

Section Sampling.

Import Tensor Layout Spatial.

Variable rng : Type.
Variable sample_image_inds : Z → Z * Z → bool → rng → list (Z * Z) * rng.
Variable preproc_segment_ids :
  list (list Z) → Z → list (list Z) * list (list R).
Variable sort : DimensionDict → DimensionDict.
Variable insert_from : DimensionDict → DimensionDict → Z → bool → DimensionDict.
Variable get_tensor :
  DimensionDict → list flat → string → outcome (list flat).

(** The image size that the head reads off the segmentation map. *)
Abbreviation height segment_ids := (Z.of_nat (length segment_ids)).
Abbreviation width segment_ids :=
  (Z.of_nat (length (default [] (head segment_ids)))).

(** The sampled locations of a run are those the sampler gives for the
    clamped budget, and the generator is left as the sampler leaves it. *)
Lemma decoder_samples nodes segment_ids Dims latent_vector_key key_pos hw_attr
    num_sample_points train attribute_dims_to_decode m g out Dims' g' :
  spatial_attribute_decoder rng sample_image_inds preproc_segment_ids sort
    insert_from get_tensor nodes segment_ids Dims latent_vector_key key_pos
    hw_attr num_sample_points train attribute_dims_to_decode m g
  = (Ok (out, Dims'), g') →
  (sampled_hw_inds out, g')
  = sample_image_inds
      (Z.min num_sample_points (height segment_ids * width segment_ids))
      (height segment_ids, width segment_ids) train g.
Proof.
  unfold spatial_attribute_decoder.
  destruct (_ ≫= _) as [[[[[Dims1 node_hws] lat_key] latent_vec] valid_nodes]|e];
    [|done].
  destruct (sample_image_inds _ _ train g) as [spatial_inds g1].
  destruct (preproc_segment_ids _ _) as [segs valid_segments].
  destruct (build_pred_dims _ _ _ _) as [predDims|e]; simpl; [|done].
  destruct (getitem Dims1 lat_key) as [position|e]; simpl; [|done].
  destruct (mapM _ attribute_dims_to_decode) as [preds|e]; simpl; [|done].
  intros H. by injection H as <- _ <-.
Qed.

(** A sample budget beyond the number of pixels is not an error of the
    head: the run is the run with the budget H*W, in its outputs, its
    failures and the state it leaves the generator in, and the locations
    that it returns are those that the sampler gives when it is asked
    for H*W of them. *)
Theorem budget_above_image_size nodes segment_ids Dims latent_vector_key
    key_pos hw_attr num_sample_points train attribute_dims_to_decode m g :
  (height segment_ids * width segment_ids < num_sample_points)%Z →
  spatial_attribute_decoder rng sample_image_inds preproc_segment_ids sort
    insert_from get_tensor nodes segment_ids Dims latent_vector_key key_pos
    hw_attr num_sample_points train attribute_dims_to_decode m g
  = spatial_attribute_decoder rng sample_image_inds preproc_segment_ids sort
      insert_from get_tensor nodes segment_ids Dims latent_vector_key key_pos
      hw_attr (height segment_ids * width segment_ids) train
      attribute_dims_to_decode m g
  ∧ ∀ out Dims' g',
      spatial_attribute_decoder rng sample_image_inds preproc_segment_ids sort
        insert_from get_tensor nodes segment_ids Dims latent_vector_key
        key_pos hw_attr num_sample_points train attribute_dims_to_decode m g
      = (Ok (out, Dims'), g') →
      (sampled_hw_inds out, g')
      = sample_image_inds (height segment_ids * width segment_ids)
          (height segment_ids, width segment_ids) train g.
Proof.
  intros Hlt. split.
  - unfold spatial_attribute_decoder.
    by rewrite Z.min_r, Z.min_id by lia.
  - intros out Dims' g' Hrun. apply decoder_samples in Hrun.
    by rewrite Z.min_r in Hrun by lia.
Qed.

End Sampling.

(** The theorem on the example record with the default budget of 4096
    locations and an image of two by two pixels, where the sampler
    gives the pixels in their order. *)
Lemma budget_above_image_size_witness :
  let decode := λ num_sample_points,
    Spatial.run_spatial_attribute_decoder Spatial.example_nodes
      Spatial.example_segment_ids Spatial.example_dims "unary_attrs" (-1)
      "hw_centroids" num_sample_points false
      [("pred_depths", (1%nat, Spatial.pred_depths_postproc))]
      Spatial.linear 0%Z in
  (∃ out Dims' g',
     decode 4096%Z = (Ok (out, Dims'), g')
     ∧ Spatial.sampled_hw_inds out = [(0, 0); (0, 1); (1, 0); (1, 1)]%Z)
  ∧ decode 4096%Z = decode (2 * 2)%Z.
Proof.
  intros decode. split.
  - eexists _, _, _. split; reflexivity.
  - apply (budget_above_image_size Z Spatial.sample_image_inds_model
             Spatial.preproc_segment_ids_model (λ Dims, Dims)
             Spatial.insert_from_model Spatial.get_tensor_model
             Spatial.example_nodes
             Spatial.example_segment_ids Spatial.example_dims "unary_attrs"
             (-1) "hw_centroids" 4096 false
             [("pred_depths", (1%nat, Spatial.pred_depths_postproc))]
             Spatial.linear 0%Z).
    simpl. lia.
Defined.

(** ** The keyword arguments of the decoder wrapper *)

Section WrapperParams.

Import Wrapper.

Variable tensor : Type.
Variable reshape_inputs : list tensor → gmap string pyval → list tensor.
Variable reshape_outputs :
  gmap string tensor → gmap string pyval → gmap string tensor.

Implicit Types self : Decoder tensor.

Lemma call_params_lookup self (kwargs : gmap string pyval) k :
  call_params tensor self kwargs !! k
  = match params tensor self !! k with
    | Some v => Some v
    | None => kwargs !! k
    end.
Proof.
  unfold call_params, update.
  destruct (params tensor self !! k) as [v|] eqn:Hp.
  - by apply lookup_union_Some_l.
  - by rewrite lookup_union_r.
Qed.

(** C10. The head of a decoder runs with the keyword arguments of the
    call updated by the parameters of the construction: for every name
    among the parameters the head receives the value of the
    construction, whatever the call gives, and for every other name the
    value of the call; [__call__] sets 'train' among the keyword
    arguments of the call, so that a parameter 'train' of the
    construction replaces it as well. *)
Theorem construction_params_override self :
  (∀ args kwargs,
     model tensor self args kwargs
     = func tensor self args (call_params tensor self kwargs))
  ∧ (∀ (kwargs : gmap string pyval) k v,
       params tensor self !! k = Some v →
       call_params tensor self kwargs !! k = Some v)
  ∧ (∀ (kwargs : gmap string pyval) k,
       params tensor self !! k = None →
       call_params tensor self kwargs !! k = kwargs !! k)
  ∧ (∀ inputs train input_mapping rename kwargs decoder_inputs,
       build_inputs tensor self inputs input_mapping = Ok decoder_inputs →
       let kwargs' := <["train" := PyBool train]> kwargs in
       let cp := call_params tensor self kwargs' in
       call tensor reshape_inputs reshape_outputs self inputs train
         input_mapping rename kwargs
       = Ok (rename_outputs tensor self
               (reshape_outputs
                  match func tensor self
                          (reshape_inputs decoder_inputs kwargs') cp with
                  | inl d => d
                  | inr t => {["outputs" := t]}
                  end kwargs'))
       ∧ cp !! "train"
         = Some (default (PyBool train) (params tensor self !! "train"))).
Proof.
  split; [done|]. split; [|split].
  - intros kwargs k v Hp. by rewrite call_params_lookup, Hp.
  - intros kwargs k Hp. by rewrite call_params_lookup, Hp.
  - intros inputs train input_mapping rename kwargs decoder_inputs Hin
      kwargs' cp.
    split.
    + unfold call. by rewrite Hin.
    + unfold cp. rewrite call_params_lookup.
      destruct (params tensor self !! "train") as [v|]; [done|].
      unfold kwargs'. by rewrite lookup_insert_eq.
Qed.

End WrapperParams.

(** The theorem for a decoder that is built with [train=False] and
    called with [train=True], and whose head returns the value of
    'train' it receives. *)
Lemma construction_params_override_witness :
  let self :=
    {| Wrapper.name := "qtr";
       Wrapper.input_signature := ["inputs"];
       Wrapper.params := {["train" := Wrapper.PyBool false]};
       Wrapper.func := λ (args : list (option Wrapper.pyval)) cp,
                         inr (cp !! "train") |} in
  Wrapper.params _ self !! "train" = Some (Wrapper.PyBool false)
  ∧ Wrapper.call_params _ self {["train" := Wrapper.PyBool true]} !! "train"
    = Some (Wrapper.PyBool false)
  ∧ Wrapper.call _ (λ x _, x) (λ x _, x) self {["features/outputs" := None]}
      true {["inputs" := "features/outputs"]} true ∅
    = Ok {["qtr/outputs" := Some (Wrapper.PyBool false)]}.
Proof.
  intros self.
  destruct (construction_params_override (option Wrapper.pyval)
              (λ x _, x) (λ x _, x) self) as (_ & Hparam & _ & Hcall).
  split; [reflexivity|]. split.
  - apply Hparam. reflexivity.
  - assert (Hin : Wrapper.build_inputs _ self {["features/outputs" := None]}
                    {["inputs" := "features/outputs"]} = Ok [None])
      by reflexivity.
    destruct (Hcall {["features/outputs" := None]} true
                {["inputs" := "features/outputs"]} true ∅ [None] Hin)
      as [Hrun _].
    rewrite Hrun. reflexivity.
Defined.

(** * Further properties of the code *)

(** ** The wrapper: inputs and output names *)

Section WrapperInputs.

Import Wrapper.

Variable tensor : Type.
Variable reshape_inputs : list tensor → gmap string pyval → list tensor.
Variable reshape_outputs :
  gmap string tensor → gmap string pyval → gmap string tensor.

Implicit Types self : Decoder tensor.

Lemma forallb_mapped (input_mapping : gmap string string) sig :
  forallb (λ v, match input_mapping !! v with
                | Some _ => true
                | None => false
                end) sig = true
  ↔ Forall (λ nm, is_Some (input_mapping !! nm)) sig.
Proof.
  induction sig as [|nm sig IH]; simpl.
  - split; [constructor|done].
  - rewrite Forall_cons, <- IH.
    destruct (input_mapping !! nm) eqn:Hnm; simpl.
    + split; [intros ?; split; [eauto|done] | by intros [_ ?]].
    + split; [done | intros [[? [=]] _]].
Qed.

(** [build_inputs] gives, in the order of the signature, the input that
    the mapping names for every name of the signature. It fails the
    assertion exactly when the mapping lacks a name of the signature, and
    raises [KeyError] when the mapping has all of them and the inputs
    lack a key that it names. *)
Theorem build_inputs_outcomes self (inputs : gmap string tensor)
    (input_mapping : gmap string string) :
  match build_inputs tensor self inputs input_mapping with
  | Ok decoder_inputs =>
      Forall2 (λ nm x, ∃ key, input_mapping !! nm = Some key
                              ∧ inputs !! key = Some x)
        (input_signature tensor self) decoder_inputs
  | Raise AssertionError =>
      ∃ nm, nm ∈ input_signature tensor self ∧ input_mapping !! nm = None
  | Raise KeyError =>
      Forall (λ nm, is_Some (input_mapping !! nm)) (input_signature tensor self)
      ∧ ∃ nm key, nm ∈ input_signature tensor self
                  ∧ input_mapping !! nm = Some key ∧ inputs !! key = None
  | Raise _ => False
  end.
Proof.
  unfold build_inputs.
  destruct (forallb _ (input_signature tensor self)) eqn:Hall; simpl.
  - apply forallb_mapped in Hall.
    destruct (mapM _ (input_signature tensor self)) as [l|e] eqn:Hm.
    + apply mapM_Ok in Hm. eapply Forall2_impl; [exact Hm|].
      intros nm x Hx; simpl in Hx.
      destruct (input_mapping !! nm) as [key|]; simpl in Hx; [|done].
      destruct (inputs !! key) as [y|] eqn:Hy; [|done].
      injection Hx as <-. eauto.
    + apply mapM_Raise in Hm as (nm & Hin & Hx).
      destruct (input_mapping !! nm) as [key|] eqn:Hk; simpl in Hx.
      * destruct (inputs !! key) as [y|] eqn:Hy; [done|].
        injection Hx as <-. split; [done|]. by exists nm, key.
      * injection Hx as <-. split; [done|].
        rewrite Forall_forall in Hall. destruct (Hall nm Hin) as [? Hs].
        congruence.
  - assert (Hn : ¬ Forall (λ nm, is_Some (input_mapping !! nm))
                     (input_signature tensor self)).
    { rewrite <- forallb_mapped. by rewrite Hall. }
    apply not_Forall_Exists in Hn; [|apply _].
    apply Exists_exists in Hn as (nm & Hin & Hnone).
    exists nm. split; [done|]. by apply eq_None_not_Some.
Qed.

(** With the default [input_mapping] of [__call__], which names 'inputs'
    only, a decoder whose signature has another name fails the assertion
    of [build_inputs] whatever the inputs are; this is so for the
    decoders of the three heads and of the image differences. *)
Theorem default_input_mapping_fails self inputs train rename kwargs :
  (∃ nm, nm ∈ input_signature tensor self ∧ nm ≠ "inputs") →
  call tensor reshape_inputs reshape_outputs self inputs train
    default_input_mapping rename kwargs
  = Raise AssertionError.
Proof.
  intros (nm & Hin & Hne). unfold call, build_inputs.
  destruct (forallb _ (input_signature tensor self)) eqn:Hall; [|done].
  apply forallb_mapped in Hall. rewrite Forall_forall in Hall.
  destruct (Hall nm Hin) as [key Hkey].
  unfold default_input_mapping in Hkey.
  apply lookup_singleton_Some in Hkey as [? _]. congruence.
Qed.

Lemma rename_outputs_kmap self (outputs : gmap string tensor) :
  rename_outputs tensor self outputs
  = kmap (λ k, name tensor self +:+ "/" +:+ k) outputs.
Proof.
  unfold rename_outputs, kmap. f_equal;
    try (apply list_fmap_ext; by intros _ [k x] _).
Qed.

Lemma prefix_inj (n : string) : Inj (=) (=) (λ k, n +:+ "/" +:+ k).
Proof.
  intros k1 k2 H. apply (inj (String.app n)) in H.
  by apply (inj (String.app "/")) in H.
Qed.

Lemma rename_outputs_key self (outputs : gmap string tensor) k :
  rename_outputs tensor self outputs !! (name tensor self +:+ "/" +:+ k)
  = outputs !! k.
Proof.
  rewrite rename_outputs_kmap.
  pose proof (prefix_inj (name tensor self)) as Hinj.
  apply (lookup_kmap (λ k, name tensor self +:+ "/" +:+ k) outputs k).
Qed.

Lemma rename_outputs_Some self (outputs : gmap string tensor) j x :
  rename_outputs tensor self outputs !! j = Some x →
  ∃ k, j = name tensor self +:+ "/" +:+ k ∧ outputs !! k = Some x.
Proof.
  rewrite rename_outputs_kmap.
  pose proof (prefix_inj (name tensor self)) as Hinj. intros Hj.
  by apply (lookup_kmap_Some (λ k, name tensor self +:+ "/" +:+ k)) in Hj.
Qed.

(** [rename_outputs] keeps every output, under its key with the name of
    the decoder and a slash before it, and it has no other keys. *)
Theorem rename_outputs_lookup self (outputs : gmap string tensor) :
  (∀ k, rename_outputs tensor self outputs !! (name tensor self +:+ "/" +:+ k)
        = outputs !! k)
  ∧ (∀ j x, rename_outputs tensor self outputs !! j = Some x →
            ∃ k, j = name tensor self +:+ "/" +:+ k ∧ outputs !! k = Some x).
Proof.
  split; [apply rename_outputs_key|apply rename_outputs_Some].
Qed.

Lemma slash_prefix_eq (n1 n2 k1 k2 : string) :
  (∀ a b, n1 ≠ a +:+ "/" +:+ b) → (∀ a b, n2 ≠ a +:+ "/" +:+ b) →
  n1 +:+ "/" +:+ k1 = n2 +:+ "/" +:+ k2 → n1 = n2.
Proof.
  revert n2. induction n1 as [|c n1 IH]; intros [|c' n2] H1 H2 Heq; simpl in *.
  - done.
  - injection Heq as <- _. by destruct (H2 "" n2).
  - injection Heq as -> _. by destruct (H1 "" n1).
  - injection Heq as <- Heq. f_equal. apply IH; [| |done].
    + intros a b ->. by apply (H1 (String c a) b).
    + intros a b ->. by apply (H2 (String c a) b).
Qed.

(** Two decoders with different names that contain no slash never give
    the same key to an output: their renamed outputs are disjoint. *)
Theorem rename_outputs_disjoint self1 self2
    (outputs1 outputs2 : gmap string tensor) :
  (∀ a b, name tensor self1 ≠ a +:+ "/" +:+ b) →
  (∀ a b, name tensor self2 ≠ a +:+ "/" +:+ b) →
  name tensor self1 ≠ name tensor self2 →
  rename_outputs tensor self1 outputs1 ##ₘ rename_outputs tensor self2 outputs2.
Proof.
  intros H1 H2 Hne. apply map_disjoint_spec. intros j x y Hx Hy.
  apply rename_outputs_Some in Hx as (k1 & -> & _).
  apply rename_outputs_Some in Hy as (k2 & Heq & _).
  apply Hne. by eapply slash_prefix_eq.
Qed.

End WrapperInputs.

(** Closes [s ≠ a +:+ "/" +:+ b] for a literal [s] without a slash. *)
Ltac no_slash :=
  let a := fresh "a" in
  let H := fresh "H" in
  intros a ? H;
  repeat (destruct a as [|? a]; [discriminate H|injection H as _ H]);
  destruct a; discriminate H.

(** The theorem for the decoders of the three heads and of the image
    differences, with no inputs. *)
Lemma default_input_mapping_fails_witness :
  let head := λ (_ : list unit) (_ : gmap string Wrapper.pyval),
                inr () : gmap string unit + unit in
  let run := λ self,
    Wrapper.call unit (λ x _, x) (λ x _, x) self ∅ true
      Wrapper.default_input_mapping true ∅ in
  run (Wrapper.QtrDecoder unit "qtr" ∅ head) = Raise AssertionError
  ∧ run (Wrapper.FutureQtrDecoder unit "future" ∅ head) = Raise AssertionError
  ∧ run (Wrapper.QsrDecoder unit "qsr" ∅ head) = Raise AssertionError
  ∧ run (Wrapper.DeltaImages unit "delta" ∅ head) = Raise AssertionError.
Proof.
  intros head run. split; [|split; [|split]].
  - apply (default_input_mapping_fails unit (λ x _, x) (λ x _, x)
             (Wrapper.QtrDecoder unit "qtr" ∅ head) ∅ true true ∅).
    exists "nodes". split; [left|discriminate].
  - apply (default_input_mapping_fails unit (λ x _, x) (λ x _, x)
             (Wrapper.FutureQtrDecoder unit "future" ∅ head) ∅ true true ∅).
    exists "nodes". split; [left|discriminate].
  - apply (default_input_mapping_fails unit (λ x _, x) (λ x _, x)
             (Wrapper.QsrDecoder unit "qsr" ∅ head) ∅ true true ∅).
    exists "nodes". split; [left|discriminate].
  - apply (default_input_mapping_fails unit (λ x _, x) (λ x _, x)
             (Wrapper.DeltaImages unit "delta" ∅ head) ∅ true true ∅).
    exists "images". split; [left|discriminate].
Defined.

(** The theorem for the decoders named 'qtr' and 'qsr'. *)
Lemma rename_outputs_disjoint_witness :
  let head := λ (_ : list nat) (_ : gmap string Wrapper.pyval),
                inr 0%nat : gmap string nat + nat in
  Wrapper.rename_outputs nat (Wrapper.QtrDecoder nat "qtr" ∅ head)
    {["outputs" := 1%nat]}
  ##ₘ Wrapper.rename_outputs nat (Wrapper.QsrDecoder nat "qsr" ∅ head)
        {["outputs" := 2%nat]}.
Proof.
  intros head.
  apply (rename_outputs_disjoint nat (Wrapper.QtrDecoder nat "qtr" ∅ head)
           (Wrapper.QsrDecoder nat "qsr" ∅ head)).
  - no_slash.
  - no_slash.
  - discriminate.
Defined.

(** ** The post-processing of the default predictions *)

Section PostProcessing.

Import Tensor Layout Spatial.
Open Scope R_scope.

Implicit Types x z : flat.

(** The depths that [DEFAULT_PRED_DIMS] decodes are at most -0.1: the
    post-processing of 'pred_depths' bounds every entry, keeps the
    number of entries, and leaves depths alone that are at most -0.1
    already. *)
Theorem pred_depths_at_most z :
  Forall (λ v, v <= -0.1) (pred_depths_postproc z)
  ∧ length (pred_depths_postproc z) = length z
  ∧ (Forall (λ v, v <= -0.1) z → pred_depths_postproc z = z).
Proof.
  unfold pred_depths_postproc. split; [|split].
  - apply Forall_fmap, Forall_forall. intros v _; simpl. apply Rmin_r.
  - by rewrite length_fmap.
  - intros Hz. rewrite <- (list_fmap_id z) at 2.
    apply Forall_fmap_ext. eapply Forall_impl; [exact Hz|].
    intros v Hv; simpl. by apply Rmin_left.
Qed.

(** Whatever the colour preprocessing gives, the images that
    [DEFAULT_PRED_DIMS] decodes have three channels with entries between
    -100 and 100. *)
Theorem pred_images_clipped preproc_hsv n func im :
  ("pred_images", (n, func)) ∈ DEFAULT_PRED_DIMS preproc_hsv →
  n = 3%nat
  ∧ Forall (λ v, -100 <= v <= 100) (func im)
  ∧ length (func im) = length (preproc_hsv im).
Proof.
  unfold DEFAULT_PRED_DIMS. intros Hin.
  apply list_elem_of_In in Hin. simpl in Hin.
  destruct Hin as [[=]|[Heq|[[=]|[]]]].
  injection Heq as <- <-. split; [done|]. unfold clip_by_value. split.
  - apply Forall_fmap, Forall_forall. intros v _; simpl. split.
    + apply Rmax_l.
    + apply Rmax_lub; [lra|apply Rmin_r].
  - by rewrite length_fmap.
Qed.

Lemma sum_mul_scale c x : sum (mul (scale c x) (scale c x)) = c * c * sum (mul x x).
Proof.
  unfold mul, scale. induction x as [|v x IH]; [simpl; lra|].
  rewrite fmap_cons. cbn [zip_with]. rewrite !sum_cons, IH. lra.
Qed.

Lemma sum_squares_nonneg x : 0 <= sum (mul x x).
Proof.
  unfold mul. induction x as [|v x IH]; [simpl; lra|].
  cbn [zip_with]. rewrite sum_cons. nra.
Qed.

(** The normals that [DEFAULT_PRED_DIMS] decodes have length 1 when the
    squared length of the raw prediction is at least TensorFlow's
    epsilon; the zero vector stays the zero vector. *)
Theorem pred_normals_unit x :
  (1 / 10 ^ 12 <= sum (mul x x) →
   sum (mul (l2_normalize x) (l2_normalize x)) = 1)
  ∧ l2_normalize (zeros (length x)) = zeros (length x).
Proof.
  unfold l2_normalize. split.
  - intros Heps. rewrite Rmax_left by done. rewrite sum_mul_scale.
    set (s := sum (mul x x)) in *.
    assert (Hs : 0 < s).
    { assert (0 < 1 / 10 ^ 12) by (apply Rdiv_lt_0_compat; [lra|apply pow_lt; lra]).
      lra. }
    pose proof (sqrt_lt_R0 s Hs) as Hq.
    pose proof (sqrt_sqrt s ltac:(lra)) as Hqq.
    rewrite <- Hqq at 3. field. lra.
  - apply scale_zeros.
Qed.

End PostProcessing.

(** The theorem at a raw normal of squared length 25. *)
Lemma pred_normals_unit_witness :
  (1 / 10 ^ 12 <= Tensor.sum (Tensor.mul [3; 4; 0] [3; 4; 0]))%R
  ∧ Tensor.sum (Tensor.mul (Spatial.l2_normalize [3; 4; 0]%R)
                  (Spatial.l2_normalize [3; 4; 0]%R)) = 1%R.
Proof.
  assert (H : (1 / 10 ^ 12 <= Tensor.sum (Tensor.mul [3; 4; 0] [3; 4; 0]))%R).
  { cbv [Tensor.sum Tensor.mul zip_with foldr].
    assert (Hp : (1 <= 10 ^ 12)%R) by (apply pow_R1_Rle; lra).
    apply Rle_trans with 1%R; [|lra].
    unfold Rdiv. rewrite Rmult_1_l, <- Rinv_1.
    apply Rinv_le_contravar; lra. }
  split; [exact H|]. by apply (proj1 (pred_normals_unit [3; 4; 0]%R)).
Defined.

(** The theorem for the default table. *)
Lemma pred_images_clipped_witness :
  let func := λ im : list R, Spatial.clip_by_value (-100) 100 ((λ x, x) im) in
  ("pred_images", (3%nat, func)) ∈ Spatial.DEFAULT_PRED_DIMS (λ x, x)
  ∧ Forall (λ v, (-100 <= v <= 100)%R) (func [1000; -1000; 0]%R).
Proof.
  intros func.
  assert (Hin : ("pred_images", (3%nat, func))
                ∈ Spatial.DEFAULT_PRED_DIMS (λ x, x)).
  { right. left. }
  split; [exact Hin|].
  apply (pred_images_clipped (λ x, x) 3 func [1000; -1000; 0]%R Hin).
Defined.

(** ** The polynomial of [spatial_attribute_decoder] *)

Section Polynomial.

Import Tensor Layout Spatial.
Open Scope R_scope.

Implicit Types x row : flat.

Lemma lookup_nth_lt x (i : nat) : (i < length x)%nat → x !! i = Some (nth i x 0).
Proof.
  intros Hi. destruct (lookup_lt_is_Some_2 x i Hi) as [v Hv].
  rewrite Hv. f_equal. symmetry. by apply nth_lookup_Some.
Qed.

Lemma split_exact m n x :
  (0 < m)%nat → length x = (n * m)%nat → split m x = Ok (parts n m x).
Proof.
  intros Hm Hx. unfold split.
  rewrite Hx, Nat.Div0.mod_mul, Nat.div_mul by lia.
  by rewrite bool_decide_eq_true_2.
Qed.

Lemma expansion_parts m predDims attr r row dH dW n :
  getitem predDims attr = Ok r →
  length (Py.slice (Some r.1) (Some r.2) row)
  = (n * (1 + n_coeffs_per_dim m))%nat →
  expansion m predDims attr row dH dW
  = Ok (add_n (zip_with (λ av d, scale d av)
                 (parts n (1 + n_coeffs_per_dim m)
                    (Py.slice (Some r.1) (Some r.2) row))
                 (deltas m dH dW))).
Proof.
  intros Hr Hlen. rewrite (expansion_unfold _ _ _ r) by done.
  by rewrite (split_exact _ n), bind_Ok by (done || lia).
Qed.

(** Rewrites the lookups in sums of scaled parts of [x] into entries of
    [x]. *)
Ltac lookup_parts :=
  unfold add, scale;
  rewrite ?lookup_zip_with, ?list_lookup_fmap;
  rewrite ?lookup_take_lt, ?lookup_drop by lia;
  rewrite ?(lookup_nth_lt _ _) by lia.

Ltac length_parts :=
  unfold add, scale;
  rewrite ?length_zip_with, ?length_fmap, ?length_take, ?length_drop; lia.

(** With [method='linear'] the decoded polynomial of an attribute of [n]
    dimensions, whose [3n] coefficients are [x], is
    [x[j] + dH * x[n+j] + dW * x[2n+j]] in every dimension [j]: the
    coefficients of one monomial are next to each other. *)
Theorem linear_expansion predDims attr r row dH dW n :
  let x := Py.slice (Some r.1) (Some r.2) row in
  getitem predDims attr = Ok r →
  length x = (n * 3)%nat →
  ∃ pred,
    expansion linear predDims attr row dH dW = Ok pred
    ∧ length pred = n
    ∧ ∀ j, (j < n)%nat →
        ∃ v, pred !! j = Some v
             ∧ v = nth j x 0 + dH * nth (n + j) x 0 + dW * nth (2 * n + j) x 0.
Proof.
  intros x Hr Hlen. eexists. split; [|split].
  - by apply (expansion_parts linear _ _ r _ _ _ n).
  - fold x. clearbody x.
    cbn [n_coeffs_per_dim Nat.add parts deltas app zip_with add_n foldl].
    length_parts.
  - intros j Hj. fold x. clearbody x.
    cbn [n_coeffs_per_dim Nat.add parts deltas app zip_with add_n foldl].
    lookup_parts.
    replace (n + (n + j))%nat with (2 * n + j)%nat by lia.
    simpl. eexists. split; [reflexivity|]. lra.
Qed.

(** With [method='quadratic'] the decoded polynomial of an attribute of
    [n] dimensions, whose [6n] coefficients are [x], is
    [x[j] + dH * x[n+j] + dW * x[2n+j] + dH^2 * x[3n+j] + dH * dW * x[4n+j]
    + dW^2 * x[5n+j]] in every dimension [j]. *)
Theorem quadratic_expansion predDims attr r row dH dW n :
  let x := Py.slice (Some r.1) (Some r.2) row in
  getitem predDims attr = Ok r →
  length x = (n * 6)%nat →
  ∃ pred,
    expansion quadratic predDims attr row dH dW = Ok pred
    ∧ length pred = n
    ∧ ∀ j, (j < n)%nat →
        ∃ v, pred !! j = Some v
             ∧ v = nth j x 0 + dH * nth (n + j) x 0 + dW * nth (2 * n + j) x 0
                   + dH * dH * nth (3 * n + j) x 0
                   + dH * dW * nth (4 * n + j) x 0
                   + dW * dW * nth (5 * n + j) x 0.
Proof.
  intros x Hr Hlen. eexists. split; [|split].
  - by apply (expansion_parts quadratic _ _ r _ _ _ n).
  - fold x. clearbody x.
    cbn [n_coeffs_per_dim Nat.add parts deltas app zip_with add_n foldl].
    length_parts.
  - intros j Hj. fold x. clearbody x.
    cbn [n_coeffs_per_dim Nat.add parts deltas app zip_with add_n foldl].
    lookup_parts.
    replace (n + (n + (n + (n + (n + j)))))%nat with (5 * n + j)%nat by lia.
    replace (n + (n + (n + (n + j))))%nat with (4 * n + j)%nat by lia.
    replace (n + (n + (n + j)))%nat with (3 * n + j)%nat by lia.
    replace (n + (n + j))%nat with (2 * n + j)%nat by lia.
    simpl. eexists. split; [reflexivity|]. lra.
Qed.

Ltac zero_offset_at n x j :=
  cbn [n_coeffs_per_dim Nat.add parts deltas app zip_with add_n foldl];
  destruct (decide (j < n)%nat);
  [ lookup_parts; rewrite ?lookup_take_lt, ?(lookup_nth_lt _ _) by lia;
    simpl; f_equal; lra
  | rewrite !lookup_ge_None_2; [done|rewrite length_take; lia|length_parts] ].

(** At the centroid, where the offset is zero, the decoded polynomial is
    its bias for every method: the first [n] coefficients of an
    attribute of [n] dimensions. *)
Theorem zero_offset_expansion m predDims attr r row n :
  let x := Py.slice (Some r.1) (Some r.2) row in
  getitem predDims attr = Ok r →
  length x = (n * (1 + n_coeffs_per_dim m))%nat →
  expansion m predDims attr row 0 0 = Ok (take n x).
Proof.
  intros x Hr Hlen. rewrite (expansion_parts m _ _ r _ _ _ n) by done.
  fold x. clearbody x. f_equal. apply list_eq. intros j.
  destruct m; simpl in Hlen.
  - zero_offset_at n x j.
  - zero_offset_at n x j.
  - zero_offset_at n x j.
Qed.

Lemma slice_length_range (s e : Z) row :
  (0 ≤ s ≤ e)%Z → (e ≤ Z.of_nat (length row))%Z →
  length (Py.slice (Some s) (Some e) row) = Z.to_nat (e - s).
Proof.
  intros Hs He. unfold Py.slice, Py.clamp_bound; simpl.
  rewrite !(proj2 (Z.ltb_ge _ _)) by lia.
  rewrite length_take, length_drop. lia.
Qed.

Lemma columns_used_app m attrs1 attrs2 :
  columns_used m (attrs1 ++ attrs2)
  = (columns_used m attrs1 + columns_used m attrs2)%Z.
Proof.
  unfold columns_used. rewrite foldr_app.
  induction attrs1 as [|item attrs1 IH]; simpl; [done|]. rewrite IH. lia.
Qed.

Lemma expansion_length m x dH dW n :
  length x = (n * (1 + n_coeffs_per_dim m))%nat →
  length (add_n (zip_with (λ av d, scale d av)
                   (parts n (1 + n_coeffs_per_dim m) x) (deltas m dH dW)))
  = n.
Proof.
  intros Hlen.
  destruct m; simpl in Hlen;
    cbn [n_coeffs_per_dim Nat.add parts deltas app zip_with add_n foldl];
    length_parts.
Qed.

(** The head builds the layout of its predictions for a latent vector
    [row] whose width holds the columns of all attributes without a
    conflict, when the names of the attributes differ from each other
    and from the name of the remainder; in this layout an attribute of
    [n] dimensions has the [n * (1 + n_coeffs_per_dim)] columns after
    those of the attributes before it, and its decoding succeeds with
    [n] values before the post-processing. *)
Theorem built_layout_decodes m lat_key before attr n func after row dH dW :
  let attrs := before ++ (attr, (n, func)) :: after in
  NoDup (attrs.*1 ++ [lat_key +:+ "_remainder"]) →
  (columns_used m attrs ≤ Z.of_nat (length row))%Z →
  ∃ predDims,
    build_pred_dims (Z.of_nat (length row)) attrs m lat_key = Ok predDims
    ∧ getitem predDims attr
      = Ok (columns_used m before,
            columns_used m before
            + Z.of_nat n * (1 + Z.of_nat (n_coeffs_per_dim m)))%Z
    ∧ ∃ pred,
        render_attr m predDims attr func row dH dW = Ok (func pred)
        ∧ length pred = n.
Proof.
  intros attrs Hnd Hfit.
  destruct (build_pred_dims_getitem (Z.of_nat (length row)) m lat_key
              before attr n func after Hnd) as (predDims & Hbuild & Hget).
  exists predDims. split; [exact Hbuild|]. split; [done|].
  unfold attrs in Hfit. rewrite columns_used_app in Hfit.
  change (columns_used m ((attr, (n, func)) :: after))
    with (Z.of_nat n * (1 + Z.of_nat (n_coeffs_per_dim m))
          + columns_used m after)%Z in Hfit.
  pose proof (columns_used_nonneg m before) as Hb.
  pose proof (columns_used_nonneg m after) as Ha.
  assert (Hlen : length (Py.slice (Some (columns_used m before))
                           (Some (columns_used m before
                                  + Z.of_nat n
                                    * (1 + Z.of_nat (n_coeffs_per_dim m)))%Z)
                           row)
                 = (n * (1 + n_coeffs_per_dim m))%nat).
  { rewrite slice_length_range by nia. nia. }
  eexists. unfold render_attr.
  rewrite (expansion_parts m _ _ _ _ _ _ n Hget Hlen). split; [reflexivity|].
  by apply expansion_length.
Qed.

End Polynomial.

(** The theorems for one attribute of one dimension whose coefficients
    are the whole latent vector. *)
Lemma linear_expansion_witness :
  let predDims :=
    {| Layout.ndims := 3;
       Layout.entries := [("pred_depths", (0, 3)%Z);
                          ("unary_attrs_remainder", (3, 3)%Z)] |} in
  Spatial.build_pred_dims 3
    [("pred_depths", (1%nat, Spatial.pred_depths_postproc))]
    Spatial.linear "unary_attrs" = Ok predDims
  ∧ ∃ pred,
      Spatial.expansion Spatial.linear predDims "pred_depths" [1; 2; 3]%R 5 7
      = Ok pred
      ∧ length pred = 1%nat.
Proof.
  intros predDims. split; [reflexivity|].
  destruct (linear_expansion predDims "pred_depths" (0, 3)%Z [1; 2; 3]%R
              5 7 1 eq_refl eq_refl) as (pred & Hp & Hl & _).
  by exists pred.
Defined.

Lemma quadratic_expansion_witness :
  let predDims :=
    {| Layout.ndims := 6;
       Layout.entries := [("pred_depths", (0, 6)%Z);
                          ("unary_attrs_remainder", (6, 6)%Z)] |} in
  Spatial.build_pred_dims 6
    [("pred_depths", (1%nat, Spatial.pred_depths_postproc))]
    Spatial.quadratic "unary_attrs" = Ok predDims
  ∧ ∃ pred,
      Spatial.expansion Spatial.quadratic predDims "pred_depths"
        [1; 2; 3; 4; 5; 6]%R 5 7 = Ok pred
      ∧ length pred = 1%nat.
Proof.
  intros predDims. split; [reflexivity|].
  destruct (quadratic_expansion predDims "pred_depths" (0, 6)%Z
              [1; 2; 3; 4; 5; 6]%R 5 7 1 eq_refl eq_refl)
    as (pred & Hp & Hl & _).
  by exists pred.
Defined.

Lemma zero_offset_expansion_witness :
  let predDims :=
    {| Layout.ndims := 6;
       Layout.entries := [("pred_depths", (0, 6)%Z);
                          ("unary_attrs_remainder", (6, 6)%Z)] |} in
  Spatial.build_pred_dims 6
    [("pred_depths", (1%nat, Spatial.pred_depths_postproc))]
    Spatial.quadratic "unary_attrs" = Ok predDims
  ∧ Spatial.expansion Spatial.quadratic predDims "pred_depths"
      [1; 2; 3; 4; 5; 6]%R 0 0 = Ok [1%R].
Proof.
  intros predDims. split; [reflexivity|].
  apply (zero_offset_expansion Spatial.quadratic predDims "pred_depths"
           (0, 6)%Z [1; 2; 3; 4; 5; 6]%R 1 eq_refl eq_refl).
Defined.

(** The theorem for the default depths and normals, linear, in a latent
    vector of width 13: the normals have the columns [3,12). *)
Lemma built_layout_decodes_witness :
  let row := [1; 2; 3; 4; 5; 6; 7; 8; 9; 10; 11; 12; 13]%R in
  ∃ predDims,
    Spatial.build_pred_dims 13
      [("pred_depths", (1%nat, Spatial.pred_depths_postproc));
       ("pred_normals", (3%nat, Spatial.l2_normalize))]
      Spatial.linear "unary_attrs" = Ok predDims
    ∧ Layout.getitem predDims "pred_normals" = Ok (3, 12)%Z
    ∧ ∃ pred,
        Spatial.render_attr Spatial.linear predDims "pred_normals"
          Spatial.l2_normalize row 0 0 = Ok (Spatial.l2_normalize pred)
        ∧ length pred = 3%nat.
Proof.
  intros row.
  apply (built_layout_decodes Spatial.linear "unary_attrs"
           [("pred_depths", (1%nat, Spatial.pred_depths_postproc))]
           "pred_normals" 3 Spatial.l2_normalize [] row 0 0).
  - apply (bool_decide_unpack _). reflexivity.
  - simpl. lia.
Defined.

(** ** The spatial head: outputs and the node record *)

Section SpatialOutputs.

Import Tensor Layout Spatial.

Variable rng : Type.
Variable sample_image_inds : Z → Z * Z → bool → rng → list (Z * Z) * rng.
Variable preproc_segment_ids :
  list (list Z) → Z → list (list Z) * list (list R).
Variable sort : DimensionDict → DimensionDict.
Variable insert_from : DimensionDict → DimensionDict → Z → bool → DimensionDict.
Variable get_tensor :
  DimensionDict → list flat → string → outcome (list flat).

Lemma index_last_is_Some {A} (l : list A) :
  l ≠ [] → is_Some (Py.index l (-1)).
Proof.
  intros Hl. unfold Py.index. simpl.
  destruct l as [|x l]; [done|].
  destruct (Z.ltb_spec (Z.of_nat (length (x :: l)) + -1) 0) as [Hlt|_].
  - simpl in Hlt. lia.
  - apply lookup_lt_is_Some. simpl. lia.
Qed.

(** A run of the spatial head that succeeds returns, for every sampled
    location, one validity and, for every attribute to decode, one
    prediction; the predictions come under the names of the attributes
    to decode, in their order. *)
Theorem spatial_outputs_per_location nodes segment_ids Dims latent_vector_key
    key_pos hw_attr num_sample_points train attribute_dims_to_decode m g
    out Dims' g' :
  spatial_attribute_decoder rng sample_image_inds preproc_segment_ids sort
    insert_from get_tensor nodes segment_ids Dims latent_vector_key key_pos
    hw_attr num_sample_points train attribute_dims_to_decode m g
  = (Ok (out, Dims'), g') →
  length (sampled_valid_attrs out) = length (sampled_hw_inds out)
  ∧ (sampled_pred_attrs out).*1 = attribute_dims_to_decode.*1
  ∧ Forall (λ p, length p.2 = length (sampled_hw_inds out))
      (sampled_pred_attrs out).
Proof.
  unfold spatial_attribute_decoder.
  destruct (_ ≫= _) as [[[[[Dims1 node_hws] lat_key] latent_vec] valid_nodes]|e];
    [|done].
  destruct (sample_image_inds _ _ train g) as [spatial_inds g1].
  destruct (preproc_segment_ids _ _) as [segs valid_segments].
  destruct (build_pred_dims _ _ _ _) as [predDims|e]; simpl; [|done].
  destruct (getitem Dims1 lat_key) as [position|e]; simpl; [|done].
  destruct (mapM _ attribute_dims_to_decode) as [preds|e] eqn:Hpreds;
    simpl; [|done].
  intros Hrun. injection Hrun as <- _ _. simpl.
  apply mapM_Ok in Hpreds. split; [by rewrite length_fmap|].
  induction Hpreds as [|item p attrs preds Hitem _ IH]; [by split|].
  destruct IH as [IH1 IH2].
  destruct (mapM _ spatial_inds) as [pred|e] eqn:Hpred; [|done].
  rewrite bind_Ok in Hitem. injection Hitem as <-.
  apply mapM_length in Hpred.
  split; [by rewrite !fmap_cons, IH1|]. by constructor.
Qed.

(** The tensor of every attribute is looked up with the columns of
    [nodes['vector']] as the default of [nodes.get], and Python evaluates
    the default before the call: a node record without the entry
    ['vector'] fails with [KeyError], also when it holds the attributes
    under their own names, and then no location is sampled, so the
    generator is left as it was. *)
Theorem node_record_needs_vector nodes segment_ids Dims latent_vector_key
    key_pos hw_attr num_sample_points train attribute_dims_to_decode m g :
  (∃ k, k ∈ keys (sort Dims) ∧ Py.is_substring hw_attr k = true) →
  nodes !! "vector" = None →
  spatial_attribute_decoder rng sample_image_inds preproc_segment_ids sort
    insert_from get_tensor nodes segment_ids Dims latent_vector_key key_pos
    hw_attr num_sample_points train attribute_dims_to_decode m g
  = (Raise KeyError, g).
Proof.
  intros (k & Hk & Hsub) Hvec. unfold spatial_attribute_decoder.
  assert (Hres : resolve sort get_tensor Dims nodes hw_attr (-1) = Raise KeyError);
    [|by rewrite Hres].
  unfold resolve.
  destruct (index_last_is_Some
              (filter (λ k, Py.is_substring hw_attr k = true) (keys (sort Dims))))
    as [key Hkey].
  { intros Hnil. assert (Hin : k ∈ filter (λ k, Py.is_substring hw_attr k = true)
                                 (keys (sort Dims)))
      by (by apply list_elem_of_filter).
    rewrite Hnil in Hin. by apply not_elem_of_nil in Hin. }
  rewrite Hkey, Hvec. reflexivity.
Qed.

End SpatialOutputs.

(** The example record decodes the default depths at the four pixels. *)
Lemma spatial_outputs_per_location_witness :
  ∃ out Dims' g',
    Spatial.run_spatial_attribute_decoder Spatial.example_nodes
      Spatial.example_segment_ids Spatial.example_dims "unary_attrs" (-1)
      "hw_centroids" 4 false
      [("pred_depths", (1%nat, Spatial.pred_depths_postproc))]
      Spatial.linear 0%Z
    = (Ok (out, Dims'), g')
    ∧ length (Spatial.sampled_hw_inds out) = 4%nat
    ∧ length (Spatial.sampled_valid_attrs out)
      = length (Spatial.sampled_hw_inds out)
    ∧ (Spatial.sampled_pred_attrs out).*1 = ["pred_depths"].
Proof.
  assert (Hex : ∃ out Dims' g',
            Spatial.run_spatial_attribute_decoder Spatial.example_nodes
              Spatial.example_segment_ids Spatial.example_dims "unary_attrs"
              (-1) "hw_centroids" 4 false
              [("pred_depths", (1%nat, Spatial.pred_depths_postproc))]
              Spatial.linear 0%Z
            = (Ok (out, Dims'), g'))
    by (eexists _, _, _; reflexivity).
  destruct Hex as (out & Dims' & g' & Hrun).
  exists out, Dims', g'. split; [exact Hrun|].
  unfold Spatial.run_spatial_attribute_decoder in Hrun.
  destruct (spatial_outputs_per_location _ _ _ _ _ _ _ _ _ _ _ _ _ _ _ _ _
              _ _ _ Hrun) as (Hv & Hn & _).
  split; [|by split].
  apply decoder_samples in Hrun.
  by injection Hrun as -> _.
Defined.

(** A record that holds the attributes under their own names and no
    ['vector'] is not decoded. *)
Lemma node_record_needs_vector_witness :
  let nodes : Spatial.propdict :=
    {[ "hw_centroids" := [ [0; 0] ]%R; "unary_attrs" := [ [3; 8; 2] ]%R;
       "valid" := [ [1] ]%R ]} in
  nodes !! "vector" = None
  ∧ Spatial.run_spatial_attribute_decoder nodes Spatial.example_segment_ids
      Spatial.example_dims "unary_attrs" (-1) "hw_centroids" 4 false
      [("pred_depths", (1%nat, Spatial.pred_depths_postproc))]
      Spatial.linear 7%Z
    = (Raise KeyError, 7%Z).
Proof.
  intros nodes. split; [reflexivity|].
  apply (node_record_needs_vector Z Spatial.sample_image_inds_model
           Spatial.preproc_segment_ids_model (λ Dims, Dims)
           Spatial.insert_from_model Spatial.get_tensor_model nodes).
  - exists "hw_centroids". split; [|reflexivity].
    apply (bool_decide_unpack _). reflexivity.
  - reflexivity.
Defined.

(** ** The future head: time steps, symmetric flows and the layout *)

Section FutureFlows.

Import Tensor Future Layout.
Open Scope R_scope.

Implicit Types fwd bck : list field.

Lemma neg_neg (x : field) : neg (neg x) = x.
Proof.
  unfold neg. rewrite <- list_fmap_compose.
  rewrite <- (list_fmap_id x) at 2.
  apply list_fmap_ext. intros _ v _. simpl. lra.
Qed.

Lemma half_sub_neg (x : field) : scale 0.5 (sub x (neg x)) = x.
Proof.
  unfold scale, sub, neg.
  induction x as [|v x IH]; [done|].
  rewrite fmap_cons. cbn [zip_with]. rewrite fmap_cons, IH. f_equal. lra.
Qed.

(** The combined field has as many time steps as the forward and the
    backward field when these have at least two, and none when they have
    none; from fields of a single time step it has two time steps. *)
Theorem combine_time_axis_steps fwd bck :
  length bck = length fwd →
  length (combine_time_axis fwd bck)
  = if decide (length fwd = 1%nat) then 2%nat else length fwd.
Proof.
  intros Hl. destruct (decide (length fwd = 1%nat)) as [H1|H1].
  - destruct fwd as [|x [|? ?]]; try done.
    destruct bck as [|y [|? ?]]; done.
  - destruct (decide (length fwd = 0%nat)) as [H0|H0].
    + destruct fwd; [|done]. by destruct bck.
    + apply combine_time_axis_length; [done|lia].
Qed.

(** When the backward field is the negated forward field, as for the
    default backward flow of the nodes, the combined field over at least
    two time steps is the forward field itself. *)
Theorem combine_time_axis_symmetric fwd :
  (2 ≤ length fwd)%nat →
  combine_time_axis fwd (neg <$> fwd) = fwd.
Proof.
  intros HT.
  assert (Hl : length (neg <$> fwd) = length fwd) by apply length_fmap.
  apply list_eq. intros t.
  destruct (decide (t = 0%nat)) as [->|Ht0].
  - rewrite combine_time_axis_first by lia.
    rewrite list_lookup_fmap. destruct (fwd !! 0%nat); simpl; [|done].
    by rewrite neg_neg.
  - destruct (decide (t = (length fwd - 1)%nat)) as [->|HtT].
    + by apply combine_time_axis_last.
    + destruct (fwd !! t) as [x|] eqn:Hx.
      * apply lookup_lt_Some in Hx as Hlt.
        rewrite (combine_time_axis_interior fwd (neg <$> fwd) t x (neg x))
          by (try done; try lia; by rewrite list_lookup_fmap, Hx).
        by rewrite half_sub_neg.
      * apply lookup_ge_None. apply lookup_ge_None in Hx.
        rewrite combine_time_axis_length; [done|done|lia].
Qed.

End FutureFlows.

Section FutureLayout.

Import Layout Future.

Variable get_attr : DimensionDict → gmap string nodes_t → string → outcome nodes_t.
Variable get_attr_dims :
  DimensionDict → nodes_t → string → list (Z * Z) → Z → bool → outcome nodes_t.
Variable preproc_segment_ids :
  list (list (list (list Z))) → nat → list (list (list (list Z))).
Variable render_nodes_with_segment_ids :
  nodes_t → list (list (list (list Z))) → list (list Tensor.flat).
Variable propagate_index_map :
  list (list (list (list Z))) → list (list Tensor.flat) → nodes_t → gmap string R
  → list (list Tensor.flat) * nodes_t.
Variable resolve_depth_order :
  nodes_t → nodes_t → nodes_t → gmap string R → nodes_t.
Variable render_attrs_from_segment_weights :
  nodes_t → nodes_t → list (Z * Z) → list (list Tensor.flat).
Variable setitem : DimensionDict → string → range → outcome DimensionDict.

(** A run of the future head succeeds only on a node record with the
    entry ['vector'] whose width is the width of the layout, and only
    when the depth columns have the axes [B,T,N,1]; it then returns one
    image under the name of every attribute to decode, in their order,
    whatever the external renderers and the assignment to the layout
    do. *)
Theorem future_decoder_requirements nodes segment_ids Dims flows_dims key_pos
    back_flows_dims depths_dims attribute_dims_to_decode kwargs images Dims' :
  future_attribute_decoder get_attr get_attr_dims preproc_segment_ids
    render_nodes_with_segment_ids propagate_index_map resolve_depth_order
    render_attrs_from_segment_weights setitem nodes segment_ids Dims
    flows_dims key_pos back_flows_dims depths_dims attribute_dims_to_decode
    kwargs
  = Ok (images, Dims') →
  ∃ vector nodes_depths,
    nodes !! "vector" = Some vector
    ∧ ndims Dims = Z.of_nat (nth 3 (shape vector) 0%nat)
    ∧ get_attr_dims Dims vector depths_dims.1 depths_dims.2 (-1)%Z false
      = Ok nodes_depths
    ∧ shape nodes_depths = take 3 (shape vector) ++ [1%nat]
    ∧ (rendered images).*1 = attribute_dims_to_decode.*1.
Proof.
  unfold future_attribute_decoder.
  destruct (get_attr Dims nodes "valid") as [nodes_valid|e]; simpl; [|done].
  destruct (nodes !! "vector") as [vector|]; [|done].
  destruct (bool_decide (ndims Dims = _)) eqn:Hw; simpl; [|done].
  destruct (node_flows _ _ _ _ _ _) as [flows|e]; simpl; [|done].
  destruct (get_attr_dims Dims vector _ _ _ false) as [nodes_depths|e]
    eqn:Hdepths; simpl; [|done].
  destruct (register_pred_depths setitem Dims depths_dims) as [Dims1|e];
    simpl; [|done].
  destruct (bool_decide (shape nodes_depths = _)) eqn:Hs; simpl; [|done].
  destruct (mapM _ attribute_dims_to_decode) as [rends|e] eqn:Hrends;
    simpl; [|done].
  intros H. injection H as <- _. simpl.
  exists vector, nodes_depths.
  apply bool_decide_eq_true_1 in Hw, Hs.
  repeat split; try done.
  apply mapM_Ok in Hrends. clear -Hrends.
  induction Hrends as [|item r attrs rends Hitem _ IH]; [done|].
  rewrite !fmap_cons, IH. f_equal.
  unfold render_attribute in Hitem.
  destruct (get_attr_dims _ _ _ _ _ _); [|done].
  rewrite bind_Ok in Hitem. by injection Hitem as <-.
Qed.

End FutureLayout.

(** ** The shape head: the logits, the factor [beta] and the layout *)

Section ShapeLogits.

Import Tensor Shape.
Open Scope R_scope.

Implicit Types l : flat.

Lemma softmax_fmap l :
  softmax l = (λ v, exp v / sum (exp <$> l)) <$> l.
Proof. unfold softmax. by rewrite <- list_fmap_compose. Qed.

Lemma sum_exp_shift l c :
  sum (exp <$> ((λ v, v - c) <$> l)) = exp (- c) * sum (exp <$> l).
Proof.
  induction l as [|v l IH]; [rewrite !fmap_nil, sum_nil; lra|].
  rewrite !fmap_cons, !sum_cons, IH.
  replace (v - c) with (v + - c) by lra. rewrite exp_plus. lra.
Qed.

(** The softmax does not change when a number is subtracted from every
    entry. *)
Lemma softmax_shift l c : softmax ((λ v, v - c) <$> l) = softmax l.
Proof.
  destruct (decide (l = [])) as [->|Hl]; [done|].
  pose proof (sum_exp_pos l Hl) as Hs. pose proof (exp_pos (- c)) as Hc.
  rewrite (softmax_fmap l), softmax_fmap, sum_exp_shift.
  rewrite <- list_fmap_compose. apply list_fmap_ext. intros _ v _. simpl.
  replace (v - c) with (v + - c) by lra. rewrite exp_plus. field. lra.
Qed.

Lemma shape_probs_stabilise kwargs zero_max l :
  shape_probs kwargs (stabilise zero_max l) = shape_probs kwargs l.
Proof.
  destruct zero_max; [|done]. unfold shape_probs, stabilise.
  set (beta := default 1 (kwargs !! "beta")).
  rewrite <- (softmax_shift ((λ v, v * beta) <$> l) (reduce_max l * beta)).
  rewrite <- !list_fmap_compose. f_equal.
  apply list_fmap_ext. intros _ v _. simpl. lra.
Qed.

Lemma foldl_Rmax_spec x xs :
  foldl Rmax x xs ∈ x :: xs
  ∧ Forall (λ v, v <= foldl Rmax x xs) (x :: xs).
Proof.
  revert x. induction xs as [|y xs IH]; intros x; simpl.
  - split; [left|]. constructor; [lra|constructor].
  - destruct (IH (Rmax x y)) as [Hin Hall].
    apply Forall_cons in Hall as [Hm Hall].
    pose proof (Rmax_l x y). pose proof (Rmax_r x y). split.
    + apply elem_of_cons in Hin as [Hin|Hin].
      * rewrite Hin. unfold Rmax. destruct (Rle_dec x y).
        -- right; left.
        -- left.
      * by right; right.
    + constructor; [lra|]. constructor; [lra|done].
Qed.

Lemma reduce_max_spec l :
  l ≠ [] → reduce_max l ∈ l ∧ Forall (λ v, v <= reduce_max l) l.
Proof. destruct l as [|x xs]; [done|]. intros _. apply foldl_Rmax_spec. Qed.

(** With [zero_max] the logits of a pixel are moved so that their
    largest entry is 0: every entry is at most 0, the entry 0 occurs, and
    the differences between the entries are kept. *)
Theorem zero_max_logits l :
  l ≠ [] →
  reduce_max (stabilise true l) = 0
  ∧ Forall (λ v, v <= 0) (stabilise true l)
  ∧ 0 ∈ stabilise true l
  ∧ ∀ i j u v u' v',
      l !! i = Some u → l !! j = Some v →
      stabilise true l !! i = Some u' → stabilise true l !! j = Some v' →
      u' - v' = u - v.
Proof.
  intros Hl. destruct (reduce_max_spec l Hl) as [Hin Hall].
  assert (Hle : Forall (λ v, v <= 0) (stabilise true l)).
  { apply Forall_fmap. eapply Forall_impl; [exact Hall|].
    intros v Hv; simpl. lra. }
  assert (H0 : 0 ∈ stabilise true l).
  { apply list_elem_of_fmap. exists (reduce_max l). split; [lra|done]. }
  split; [|split; [done|split; [done|]]].
  - assert (Hne : stabilise true l ≠ []).
    { intros Hnil. rewrite Hnil in H0. by apply not_elem_of_nil in H0. }
    destruct (reduce_max_spec _ Hne) as [Hin' Hall'].
    rewrite Forall_forall in Hle, Hall'.
    apply Hle in Hin'. apply Hall' in H0. lra.
  - intros i j u v u' v' Hu Hv. simpl.
    rewrite !list_lookup_fmap, Hu, Hv. simpl. intros [= <-] [= <-]. lra.
Qed.

Lemma sum_replicate n (c : R) : sum (replicate n c) = INR n * c.
Proof.
  induction n as [|n IH]; [simpl; lra|].
  change (replicate (S n) c) with (c :: replicate n c).
  rewrite sum_cons, IH, S_INR. lra.
Qed.

Lemma argmax_from_replicate best_i (c : R) i n :
  argmax_from best_i c i (replicate n c) = best_i.
Proof.
  revert i. induction n as [|n IH]; intros i; [done|]. simpl.
  destruct (Rlt_dec c c) as [Hlt|_]; [lra|apply IH].
Qed.

(** With [beta = 0] the logits play no part: the distribution of a
    pixel over its nodes is the uniform one, and the label that the
    evaluation mode reads off it is node 0. *)
Theorem beta_zero_uniform kwargs l :
  kwargs !! "beta" = Some 0 →
  shape_probs kwargs l = replicate (length l) (1 / INR (length l))
  ∧ argmax (shape_probs kwargs l) = 0%nat.
Proof.
  intros Hbeta.
  assert (Hp : shape_probs kwargs l
               = replicate (length l) (1 / INR (length l))).
  { unfold shape_probs, softmax. rewrite Hbeta. simpl.
    assert (He : exp <$> ((λ v, v * 0) <$> l) = replicate (length l) 1).
    { induction l as [|v l IH]; [done|].
      rewrite !fmap_cons, IH, Rmult_0_r, exp_0. done. }
    by rewrite He, sum_replicate, fmap_replicate, Rmult_1_r. }
  split; [done|]. rewrite Hp.
  destruct (length l) as [|n]; [done|].
  change (replicate (S n) (1 / INR (S n)))
    with (1 / INR (S n) :: replicate n (1 / INR (S n))).
  apply argmax_from_replicate.
Qed.

End ShapeLogits.

Section ShapeOutputs.

Import Tensor Layout Shape.
Open Scope R_scope.

Variable depths_t : Type.
Variable resolve_depth_order :
  list flat → depths_t → list R → bool → bool → gmap string R → list flat.
Variable render_attrs_from_segment_weights :
  list flat → list flat → list (Z * Z) → list flat.
Variable get_attr_dims :
  DimensionDict → list flat → string → list (Z * Z) → Z → outcome (list flat).

Lemma shape_probs_of_stabilised kwargs zero_max (logits : list flat) :
  shape_probs kwargs <$> (stabilise zero_max <$> logits)
  = shape_probs kwargs <$> logits.
Proof.
  rewrite <- list_fmap_compose. apply list_fmap_ext. intros _ l _. simpl.
  apply shape_probs_stabilise.
Qed.

(** Moving the logits by their largest entry ([zero_max]) changes the
    output 'shape_logits' only: the distribution 'shapes' (the labels,
    in evaluation mode), the validity and every rendered attribute are
    the same with and without it, in exact arithmetic. *)
Theorem zero_max_keeps_shapes Dims nodes index_masks nodes_depths nodes_valid
    train valid_mask attribute_dims_to_decode kwargs :
  let run := shape_decoder_outputs depths_t resolve_depth_order
               render_attrs_from_segment_weights get_attr_dims Dims nodes
               index_masks nodes_depths nodes_valid train in
  shapes <$> run true valid_mask attribute_dims_to_decode kwargs
  = shapes <$> run false valid_mask attribute_dims_to_decode kwargs
  ∧ shapes_valid <$> run true valid_mask attribute_dims_to_decode kwargs
    = shapes_valid <$> run false valid_mask attribute_dims_to_decode kwargs
  ∧ rendered <$> run true valid_mask attribute_dims_to_decode kwargs
    = rendered <$> run false valid_mask attribute_dims_to_decode kwargs.
Proof.
  intros run. unfold run, Shape.shape_decoder_outputs.
  rewrite !shape_probs_of_stabilised.
  destruct (mapM _ attribute_dims_to_decode) as [rends|e]; simpl; done.
Qed.

End ShapeOutputs.

(** The theorems on fields of one entry over one and over three time
    steps. *)
Lemma combine_time_axis_steps_witness :
  length (Future.combine_time_axis [[1]]%R [[2]]%R) = 2%nat
  ∧ length (Future.combine_time_axis [[1]; [2]; [3]]%R [[4]; [5]; [6]]%R)
    = 3%nat.
Proof.
  split.
  - apply (combine_time_axis_steps [[1]]%R [[2]]%R). reflexivity.
  - apply (combine_time_axis_steps [[1]; [2]; [3]]%R [[4]; [5]; [6]]%R).
    reflexivity.
Defined.

Lemma combine_time_axis_symmetric_witness :
  Future.combine_time_axis [[1]; [2]; [3]]%R (Tensor.neg <$> [[1]; [2]; [3]]%R)
  = [[1]; [2]; [3]]%R.
Proof.
  apply (combine_time_axis_symmetric [[1]; [2]; [3]]%R). simpl. lia.
Defined.

(** The theorem on a record of one node with the single column of its
    depth, where the layout helpers return the columns that they are
    given, the assignment leaves the layout as it is and the renderers
    return empty images. *)
Lemma future_decoder_requirements_witness :
  let nodes : gmap string Future.nodes_t := {[ "vector" := [[[[-1]]]]%R ]} in
  let Dims := {| Layout.ndims := 1;
                 Layout.entries := [("pred_depths", (0, 1)%Z)] |} in
  ∃ images Dims',
    Future.future_attribute_decoder
      (λ _ _ _, Ok [[[[1]]]]%R) (λ _ nodes _ _ _ _, Ok nodes)
      (λ segment_ids _, segment_ids) (λ _ _, []) (λ _ _ _ _, ([], []))
      (λ _ _ _ _, []) (λ _ _ _, []) (λ Dims _ _, Ok Dims)
      nodes [] Dims ("pred_flows", [(0, 2)%Z]) (-1) None
      Future.default_depths_dims [("pred_depths", (inl 1%nat, None))] ∅
    = Ok (images, Dims')
    ∧ Layout.ndims Dims = 1%Z
    ∧ (Future.rendered images).*1 = ["pred_depths"].
Proof.
  intros nodes Dims. eexists _, _. split; [reflexivity|].
  destruct (future_decoder_requirements
              (λ _ _ _, Ok [[[[1]]]]%R) (λ _ nodes _ _ _ _, Ok nodes)
              (λ segment_ids _, segment_ids) (λ _ _, []) (λ _ _ _ _, ([], []))
              (λ _ _ _ _, []) (λ _ _ _, []) (λ Dims _ _, Ok Dims)
              nodes [] Dims ("pred_flows", [(0, 2)%Z]) (-1) None
              Future.default_depths_dims [("pred_depths", (inl 1%nat, None))] ∅
              _ _ eq_refl)
    as (vector & nodes_depths & Hv & Hw & _ & _ & Hn).
  split; [reflexivity|exact Hn].
Defined.

(** The theorem on the logits 1, 3 and 2, which become -2, 0 and -1. *)
Lemma zero_max_logits_witness :
  Tensor.reduce_max (Shape.stabilise true [1; 3; 2]%R) = 0%R
  ∧ Forall (λ v, (v <= 0)%R) (Shape.stabilise true [1; 3; 2]%R)
  ∧ 0%R ∈ Shape.stabilise true [1; 3; 2]%R.
Proof.
  destruct (zero_max_logits [1; 3; 2]%R) as (Hm & Hle & H0 & _); [done|].
  by repeat split.
Defined.

Lemma beta_zero_uniform_witness :
  let kwargs : gmap string R := {[ "beta" := 0%R ]} in
  Shape.shape_probs kwargs [1; 2]%R = [1 / INR 2; 1 / INR 2]%R
  ∧ Shape.argmax (Shape.shape_probs kwargs [1; 2]%R) = 0%nat.
Proof.
  intros kwargs. apply (beta_zero_uniform kwargs [1; 2]%R). reflexivity.
Defined.

(** ** Pixel indices and centroids *)

Section Centroids.

Import Tensor Spatial Shape.
Open Scope R_scope.

(** The spatial head brings a pixel index of an image of more than one
    row and column to the scale of the centroids: every pixel of the
    image goes into [[-1, 1]], the first pixel to -1 and the last one
    to 1 along each axis. *)
Theorem inds_float_range H W h w :
  (1 < H)%Z → (1 < W)%Z → (0 ≤ h < H)%Z → (0 ≤ w < W)%Z →
  Forall (λ v, -1 <= v <= 1) (inds_float H W (h, w))
  ∧ inds_float H W (0, 0)%Z = [-1; -1]
  ∧ inds_float H W (H - 1, W - 1)%Z = [1; 1].
Proof.
  intros HH HW Hh Hw. unfold inds_float. simpl.
  apply IZR_lt in HH, HW.
  assert (Hbound : ∀ n i, 1 < IZR n → (0 ≤ i < n)%Z →
            -1 <= -1 + IZR i / ((IZR n - 1) / 2) <= 1).
  { intros n i Hn [Hi0 Hin].
    apply IZR_le in Hi0.
    assert (Hin' : (i ≤ n - 1)%Z) by lia.
    apply IZR_le in Hin'. rewrite minus_IZR in Hin'.
    assert (Hpos : 0 < (IZR n - 1) / 2) by lra.
    assert (Hq : 0 <= IZR i / ((IZR n - 1) / 2) <= 2).
    { split.
      - apply Rmult_le_pos; [done|]. apply Rlt_le. by apply Rinv_0_lt_compat.
      - apply (Rmult_le_reg_r ((IZR n - 1) / 2)); [done|].
        unfold Rdiv at 1. rewrite Rmult_assoc, Rinv_l by lra. lra. }
    lra. }
  split; [|split].
  - apply Forall_cons. split; [by apply Hbound|].
    apply Forall_cons. split; [by apply Hbound|constructor].
  - f_equal; [|f_equal]; unfold Rdiv; lra.
  - rewrite !minus_IZR. f_equal; [|f_equal]; field; lra.
Qed.

(** The shape head scales a centroid back to pixels: for a node whose
    centroid is the pixel (h, w) on the scale of the spatial head, the
    translation of its shape is the position of that pixel from the
    centre of the image, x to the right and y upwards. *)
Theorem translations_of_pixel H W h w :
  (1 < H)%Z → (1 < W)%Z →
  translations H W true (inds_float H W (h, w))
  = Ok [IZR w - (IZR W - 1) / 2; (IZR H - 1) / 2 - IZR h].
Proof.
  intros HH HW. apply IZR_lt in HH, HW.
  unfold translations, inds_float, xy_scales. simpl.
  f_equal. f_equal; [|f_equal]; field; lra.
Qed.

End Centroids.

(** The theorems in an image of three rows and five columns. *)
Lemma inds_float_range_witness :
  Forall (λ v, (-1 <= v <= 1)%R) (Spatial.inds_float 3 5 (1, 4)%Z)
  ∧ Spatial.inds_float 3 5 (0, 0)%Z = [-1; -1]%R
  ∧ Spatial.inds_float 3 5 (3 - 1, 5 - 1)%Z = [1; 1]%R.
Proof. apply (inds_float_range 3 5 1 4); lia. Defined.

Lemma translations_of_pixel_witness :
  Shape.translations 3 5 true (Spatial.inds_float 3 5 (0, 4)%Z)
  = Ok [4 - (5 - 1) / 2; (3 - 1) / 2 - 0]%R.
Proof. apply (translations_of_pixel 3 5 0 4); lia. Defined.
